(** * ArmourIQ policy enforcement: a shallow embedding

    The development follows the layout of the repository:

    - [Backend]: the payment policy check of the backend API
      ([evaluate_payment_policy]) and the policy configuration it is
      documented against (integration guide, "Policy Evaluation Logic" and
      "Configuration Structure").
    - [PolicyEngine]: the condition evaluator, the rule tree evaluator and the
      policy engine.  Their implementation (api/server.py) is not among the
      source files, so they are modelled from the specification; the policy
      file they are applied to is the one of the integration guide.
    - [AppUI]: [handleRun] of demo-ui/src/App.jsx and the mock
      [executionTrace].
    - [Questionnaire]: demo-ui/src/components/QuestionnaireModal.jsx.
    - [StageCard]: the redirect logic of
      demo-ui/src/components/StageCard.jsx. *)

From Stdlib Require Import Ascii String NArith ZArith QArith Permutation PrimFloat.
From stdpp Require Import base option list strings gmap.

Set Warnings "-register-all".

Local Open Scope string_scope.
Local Open Scope list_scope.

(** ** Values exchanged between the components *)

(** A JSON/JavaScript value.  Numbers are kept as rationals: the programs
    only compare them and pass them through. *)
Inductive JSValue : Type :=
| JUndefined
| JNull
| JBool (b : bool)
| JNum (q : Q)
| JStr (s : string)
| JArr (items : list JSValue)
| JObj (props : list (string * JSValue)).

(** JavaScript truthiness ([if (v)], [v && ...]). *)
Definition truthy (v : JSValue) : bool :=
  match v with
  | JUndefined | JNull => false
  | JBool b => b
  | JNum q => negb (Qeq_bool q 0)
  | JStr s => negb (String.eqb s "")
  | JArr _ | JObj _ => true
  end.

(** Property lookup on an association list of own properties. *)
Fixpoint assoc {A : Type} (k : string) (props : list (string * A)) : option A :=
  match props with
  | [] => None
  | (k', v) :: rest => if String.eqb k k' then Some v else assoc k rest
  end.

(** [v.k]: property access; a missing property reads as [undefined].
    (Reading a property of [undefined] or [null] throws in JavaScript; the
    components below only read properties of stage payloads, which are
    objects.) *)
Definition prop (k : string) (v : JSValue) : JSValue :=
  match v with
  | JObj props => default JUndefined (assoc k props)
  | _ => JUndefined
  end.

(** [v === 'lit']: strict equality against a string literal. *)
Definition is_str (lit : string) (v : JSValue) : bool :=
  match v with
  | JStr s => String.eqb s lit
  | _ => false
  end.

(** The verdict of a policy evaluation. *)
Inductive Verdict : Type := EXECUTED | BLOCKED | REQUIRES_APPROVAL.

(** ** The backend payment policy *)

Module Backend.

(** [verified_merchants] of [evaluate_payment_policy]. *)
Definition verified_merchants : list string :=
  ["ELECTRICITY_BOARD"; "WATER_UTILITY"; "TELECOM_PROVIDER"].

(** [merchant in verified_merchants]. *)
Definition is_verified (merchant : string) : bool :=
  existsb (String.eqb merchant) verified_merchants.

(** The limit [max_amount] computed by checks 1 and 2. *)
Definition max_amount (merchant : string) : Q :=
  if is_verified merchant then 50000 else 5000.

(** [evaluate_payment_policy(amount, merchant)].  The function computes
    [max_amount] and then validates the amount against the literal 5000;
    the binding is kept to follow the source.  Amounts are rationals, which
    covers every finite value of the [float] parameter. *)
Definition evaluate_payment_policy (amount : Q) (merchant : string) : Verdict :=
  let _max_amount := max_amount merchant in
  if negb (Qle_bool amount 5000) then BLOCKED else EXECUTED.

End Backend.

(** ** Condition evaluator, rule tree evaluator and policy engine *)

Module PolicyEngine.

(** Modelled from the spec: the scalar values of a transaction record
    (section 3, "a flat key-value transaction record"); the record type of
    api/server.py is missing. *)
Inductive Scalar : Type :=
| SStr (s : string)
| SNum (q : Q)
| SBool (b : bool).

(** Modelled from the spec: equality of scalars in the missing condition
    evaluator; "equality on strings is case-sensitive and exact"
    (section 4.1).  Scalars of different types are different. *)
Definition scalar_eqb (a b : Scalar) : bool :=
  match a, b with
  | SStr x, SStr y => String.eqb x y
  | SNum x, SNum y => Qeq_bool x y
  | SBool x, SBool y => Bool.eqb x y
  | _, _ => false
  end.

(** Modelled from the spec: the operator enumeration of a Condition
    (section 3); the source of the condition evaluator is missing. *)
Inductive Operator : Type :=
| EQUALS | NOT_EQUALS
| LESS_THAN | LESS_THAN_OR_EQUAL | GREATER_THAN | GREATER_THAN_OR_EQUAL
| IN | NOT_IN.

(** Modelled from the spec: the value of a Condition, "scalar|list"
    (section 3); the type is declared in the missing api/server.py. *)
Inductive CondValue : Type :=
| VScalar (v : Scalar)
| VList (vs : list Scalar).

(** Modelled from the spec: Condition [{field, operator, value}] of
    section 3; the type is declared in the missing api/server.py. *)
Record Condition : Type := mkCondition {
  field : string;
  operator : Operator;
  value : CondValue
}.

(** Modelled from the spec: the diagnostic of one leaf check of the missing
    condition evaluator.  [Passed] is the only outcome that counts as true;
    [FieldMissing] and [TypeMismatch] are the two non-fatal anomalies of
    section 7, [Failed] an ordinary failed comparison. *)
Inductive Diagnostic : Type := Passed | Failed | FieldMissing | TypeMismatch.

(** Modelled from the spec: the diagnostic of a comparison that could be
    carried out (helper of the missing condition evaluator). *)
Definition of_bool (b : bool) : Diagnostic := if b then Passed else Failed.

(** Modelled from the spec: numeric comparison in the missing condition
    evaluator (section 4.1); the comparison operators "type-check numeric fields as numeric and fail
    (evaluate false, report TypeMismatch) rather than raise when types
    disagree". *)
Definition compare_numeric (test : Q -> Q -> bool) (actual : Scalar) (expected : CondValue)
  : Diagnostic :=
  match actual, expected with
  | SNum a, VScalar (SNum e) => of_bool (test a e)
  | _, _ => TypeMismatch
  end.

(** Modelled from the spec: the Condition Evaluator of section 4.1 (its
    source, api/server.py, is missing), with its diagnostic.  A record that lacks [condition.field] fails with
    [FieldMissing]; [IN]/[NOT_IN] compare against a finite set. *)
Definition check (c : Condition) (record : gmap string Scalar) : Diagnostic :=
  match record !! field c with
  | None => FieldMissing
  | Some actual =>
      match operator c with
      | EQUALS =>
          match value c with
          | VScalar e => of_bool (scalar_eqb actual e)
          | VList _ => TypeMismatch
          end
      | NOT_EQUALS =>
          match value c with
          | VScalar e => of_bool (negb (scalar_eqb actual e))
          | VList _ => TypeMismatch
          end
      | LESS_THAN => compare_numeric (fun a e => negb (Qle_bool e a)) actual (value c)
      | LESS_THAN_OR_EQUAL => compare_numeric Qle_bool actual (value c)
      | GREATER_THAN => compare_numeric (fun a e => negb (Qle_bool a e)) actual (value c)
      | GREATER_THAN_OR_EQUAL => compare_numeric (fun a e => Qle_bool e a) actual (value c)
      | IN =>
          match value c with
          | VList es => of_bool (existsb (scalar_eqb actual) es)
          | VScalar _ => TypeMismatch
          end
      | NOT_IN =>
          match value c with
          | VList es => of_bool (negb (existsb (scalar_eqb actual) es))
          | VScalar _ => TypeMismatch
          end
      end
  end.

(** Modelled from the spec: [evaluate(condition, record) -> bool], the
    contract of the missing Condition Evaluator (section 4.1). *)
Definition evaluate (c : Condition) (record : gmap string Scalar) : bool :=
  match check c record with
  | Passed => true
  | _ => false
  end.

(** Modelled from the spec: RuleGroup/RuleNode of section 3, a tagged
    variant with [Leaf], [AllOf] and [AnyOf]; the type of the missing rule
    tree evaluator. *)
Inductive RuleNode : Type :=
| Leaf (c : Condition)
| AllOf (children : list RuleNode)
| AnyOf (children : list RuleNode).

(** Modelled from the spec: the explanation tree of section 4.2, returned
    by the missing rule tree evaluator; a group records the children that
    were evaluated, in order. *)
Inductive Explanation : Type :=
| ExLeaf (c : Condition) (d : Diagnostic)
| ExAllOf (result : bool) (evaluated : list Explanation)
| ExAnyOf (result : bool) (evaluated : list Explanation).

(** Modelled from the spec: the Rule Tree Evaluator of section 4.2 (its
    source, api/server.py, is missing),
    [evaluate(node, record) -> (bool, explanation-tree)].  [AllOf] stops at
    the first false child, [AnyOf] at the first true child, and the
    explanation holds the children evaluated so far. *)
Fixpoint evaluate_node (n : RuleNode) (record : gmap string Scalar) : bool * Explanation :=
  match n with
  | Leaf c => (evaluate c record, ExLeaf c (check c record))
  | AllOf children =>
      let fix all_of (ns : list RuleNode) : bool * list Explanation :=
        match ns with
        | [] => (true, [])
        | child :: rest =>
            let r := evaluate_node child record in
            if fst r
            then let rs := all_of rest in (fst rs, snd r :: snd rs)
            else (false, [snd r])
        end in
      let rs := all_of children in (fst rs, ExAllOf (fst rs) (snd rs))
  | AnyOf children =>
      let fix any_of (ns : list RuleNode) : bool * list Explanation :=
        match ns with
        | [] => (false, [])
        | child :: rest =>
            let r := evaluate_node child record in
            if fst r
            then (true, [snd r])
            else let rs := any_of rest in (fst rs, snd r :: snd rs)
        end in
      let rs := any_of children in (fst rs, ExAnyOf (fst rs) (snd rs))
  end.

(** Modelled from the spec: the action enumeration of a PolicyRule
    (section 3), declared in the missing api/server.py. *)
Inductive Action : Type := ALLOW | DENY.

(** Modelled from the spec: the severity enumeration of a PolicyRule
    (section 3), declared in the missing api/server.py. *)
Inductive Severity : Type := BLOCK | BLOCK_AND_LOG | REQUIRE_HUMAN_APPROVAL.

(** Modelled from the spec: PolicyRule of section 3, the rule type of the
    missing policy engine.  The severity is optional because the policy file
    of the integration guide declares its ALLOW rule without one. *)
Record PolicyRule : Type := mkPolicyRule {
  tool : string;
  action : Action;
  condition_tree : RuleNode;
  severity : option Severity;
  description : string
}.

(** Modelled from the spec: the result of a check in the report of the
    missing policy engine (section 3). *)
Inductive CheckResult : Type := PASS | FAIL.

(** Modelled from the spec: one entry of [PolicyReport.checks] of the
    missing policy engine; the rule is referred to by its description and
    the raw explanation tree is kept. *)
Record Check : Type := mkCheck {
  rule_ref : string;
  result : CheckResult;
  explanation : Explanation
}.

(** Modelled from the spec: PolicyReport of section 3, the result of the
    missing policy engine, with the reason code that section 4.3 attaches to
    the default-deny verdict. *)
Record PolicyReport : Type := mkPolicyReport {
  checks : list Check;
  verdict : Verdict;
  triggered_rules : list string;
  reason : option string
}.

(** Modelled from the spec: "a rule fires when its tree evaluates true"
    (section 4.3; the policy engine is missing). *)
Definition fires (record : gmap string Scalar) (r : PolicyRule) : bool :=
  fst (evaluate_node (condition_tree r) record).

(** Modelled from the spec: the rule matches the tool ("filter PolicyRules
    to those matching tool", section 4.3; the policy engine is missing). *)
Definition has_tool (t : string) (r : PolicyRule) : bool := String.eqb (tool r) t.

(** Modelled from the spec: the rules of a tool that fire on a transaction
    (section 4.3; the policy engine is missing). *)
Definition fired (rules : list PolicyRule) (t : string) (tx : gmap string Scalar)
  : list PolicyRule :=
  List.filter (fires tx) (List.filter (has_tool t) rules).

(** Modelled from the spec: the three tests of the classification of
    section 4.3 (the policy engine is missing): severity BLOCK or
    BLOCK_AND_LOG, severity REQUIRE_HUMAN_APPROVAL, action ALLOW. *)
Definition is_blocking (r : PolicyRule) : bool :=
  match severity r with
  | Some BLOCK | Some BLOCK_AND_LOG => true
  | _ => false
  end.

Definition needs_approval (r : PolicyRule) : bool :=
  match severity r with
  | Some REQUIRE_HUMAN_APPROVAL => true
  | _ => false
  end.

Definition is_allow (r : PolicyRule) : bool :=
  match action r with
  | ALLOW => true
  | DENY => false
  end.

(** Modelled from the spec: the report entry of one evaluated rule
    (section 4.3; the policy engine is missing). *)
Definition check_of (record : gmap string Scalar) (r : PolicyRule) : Check :=
  let res := evaluate_node (condition_tree r) record in
  {| rule_ref := description r;
     result := if fst res then PASS else FAIL;
     explanation := snd res |}.

(** Modelled from the spec: the Policy Engine of section 4.3 (its source,
    api/server.py, is missing),
    [evaluate(tool, transaction) -> PolicyReport], over the loaded rule
    set.  The rules of the tool are evaluated; then, in this fixed order:
    a fired rule with severity BLOCK or BLOCK_AND_LOG gives BLOCKED; else a
    fired rule with severity REQUIRE_HUMAN_APPROVAL gives
    REQUIRES_APPROVAL; else a rule with action ALLOW whose tree is true
    gives EXECUTED; else BLOCKED with reason NO_MATCHING_ALLOW_RULE. *)
Definition evaluate_policy (rules : list PolicyRule) (t : string)
    (transaction : gmap string Scalar) : PolicyReport :=
  let applicable := List.filter (has_tool t) rules in
  let report := mkPolicyReport (map (check_of transaction) applicable) in
  match List.filter is_blocking (fired rules t transaction) with
  | (_ :: _) as blocking => report BLOCKED (map description blocking) None
  | [] =>
      match List.filter needs_approval (fired rules t transaction) with
      | (_ :: _) as pending => report REQUIRES_APPROVAL (map description pending) None
      | [] =>
          match List.filter is_allow (fired rules t transaction) with
          | _ :: _ => report EXECUTED [] None
          | [] => report BLOCKED [] (Some "NO_MATCHING_ALLOW_RULE")
          end
      end
  end.

(** A leaf of the policy file: [field], [condition], [value]. *)
Definition condition (f : string) (op : Operator) (v : Scalar) : RuleNode :=
  Leaf {| field := f; operator := op; value := VScalar v |}.

(** The policy file of the integration guide ("Configuration Structure"):
    one ALLOW rule for [execute_payment]; verified merchants up to 50000,
    unverified vendors up to 5000. *)
Definition payment_allow_tree : RuleNode :=
  AnyOf
    [ AllOf [ condition "recipient_type" EQUALS (SStr "VERIFIED_MERCHANT");
              condition "amount" LESS_THAN_OR_EQUAL (SNum 50000) ];
      AllOf [ condition "recipient_type" EQUALS (SStr "UNVERIFIED");
              condition "amount" LESS_THAN_OR_EQUAL (SNum 5000) ] ].

(** [policies]: the rule list of the policy file. *)
Definition policies : list PolicyRule :=
  [ {| tool := "execute_payment";
       action := ALLOW;
       condition_tree := payment_allow_tree;
       severity := None;
       description := "" |} ].

(** The transaction record that the policy file is evaluated on for a
    payment: the amount, and the recipient type that checks 1 and 2 of
    [evaluate_payment_policy] derive from the merchant (on the allowlist:
    VERIFIED_MERCHANT, otherwise UNVERIFIED). *)
Definition payment_transaction (amount : Q) (merchant : string) : gmap string Scalar :=
  <[ "recipient_type" :=
       SStr (if Backend.is_verified merchant then "VERIFIED_MERCHANT" else "UNVERIFIED") ]>
    (<[ "amount" := SNum amount ]> ∅).


(** A second rule for the same tool, used to exercise the precedence of
    severities: payments above 1000 are to be reviewed by a human. *)
Definition review_rule : PolicyRule :=
  {| tool := "execute_payment";
     action := DENY;
     condition_tree := condition "amount" GREATER_THAN (SNum 1000);
     severity := Some REQUIRE_HUMAN_APPROVAL;
     description := "LARGE_PAYMENT_REVIEW" |}.

End PolicyEngine.

(** ** demo-ui/src/App.jsx: the run handler and its fallback *)

Module AppUI.

Definition obj (props : list (string * JSValue)) : JSValue := JObj props.
Definition stage (type : string) (payload : JSValue) : JSValue :=
  obj [("type", JStr type); ("payload", payload)].

(** The hard-coded [executionTrace.stages]. *)
Definition executionTrace_stages : list JSValue :=
  [ stage "USER_INPUT" (obj [("text", JStr "Pay my electricity bill")]);
    stage "REASONING"
      (obj [("text", JStr "The user wants to pay a recurring utility bill. I should identify the merchant, estimate the amount, and propose a payment.")]);
    stage "PLAN"
      (obj [("steps", JArr [ JStr "Identify electricity provider";
                             JStr "Retrieve last bill amount";
                             JStr "Propose a payment intent" ])]);
    stage "INTENT_TOKEN"
      (obj [("action", JStr "PAY_BILL");
            ("amount", JNum 6200);
            ("merchant", JStr "ELECTRICITY_BOARD");
            ("confidence", JNum (91 # 100))]);
    stage "POLICY_EVALUATION"
      (obj [("checks", JArr
               [ obj [("rule", JStr "MERCHANT_ALLOWLIST"); ("result", JStr "PASS")];
                 obj [("rule", JStr "MAX_TRANSACTION_AMOUNT");
                      ("result", JStr "FAIL");
                      ("expected", JStr "≤ 5000");
                      ("actual", JNum 6200)] ])]);
    stage "MCP_OUTCOME"
      (obj [("status", JStr "BLOCKED"); ("reason", JStr "MAX_TRANSACTION_AMOUNT")]) ].

Definition executionTrace : JSValue := obj [("stages", JArr executionTrace_stages)].

(** The state hooks of [App]. *)
Record AppState : Type := mkAppState {
  inputValue : string;
  showExecution : bool;
  visibleStages : JSValue;
  loading : bool;
  error : option string;          (* [null] or a message *)
  executionId : JSValue;
  showQuestionnaire : bool;
  questions : JSValue;
  originalRequest : string
}.

(** [useState] initial values. *)
Definition initial : AppState :=
  {| inputValue := "Pay my electricity bill";
     showExecution := false;
     visibleStages := JArr [];
     loading := false;
     error := None;
     executionId := JNull;
     showQuestionnaire := false;
     questions := JArr [];
     originalRequest := "" |}.

(** What the network does to one request of [handleRun]: [fetch] rejects,
    or it resolves to a response with its [ok] flag, whose [json()]
    either rejects ([None]) or resolves to the parsed body. *)
Inductive FetchOutcome : Type :=
| FetchRejected
| Response (ok : bool) (json : option JSValue).

(** The body of the [try] block up to its first state update: the value
    [data] it goes on with, or [None] when an exception is thrown ([fetch]
    rejecting, the [!response.ok] throw, [json()] rejecting, or reading
    [needs_questions] of [null]/[undefined]). *)
Definition try_fetch (o : FetchOutcome) : option JSValue :=
  match o with
  | FetchRejected => None
  | Response false _ => None
  | Response true None => None
  | Response true (Some JUndefined) | Response true (Some JNull) => None
  | Response true (Some data) => Some data
  end.

(** [handleRun], given the outcome of its request. *)
Definition handleRun (o : FetchOutcome) (st : AppState) : AppState :=
  let st1 :=
    {| inputValue := inputValue st;
       showExecution := true;
       visibleStages := JArr [];
       loading := true;
       error := None;
       executionId := executionId st;
       showQuestionnaire := showQuestionnaire st;
       questions := questions st;
       originalRequest := inputValue st |} in
  match try_fetch o with
  | Some data =>
      if truthy (prop "needs_questions" data)
      then {| inputValue := inputValue st1;
              showExecution := showExecution st1;
              visibleStages := visibleStages st1;
              loading := false;
              error := error st1;
              executionId := executionId st1;
              showQuestionnaire := true;
              questions := prop "questions" data;
              originalRequest := originalRequest st1 |}
      else {| inputValue := inputValue st1;
              showExecution := showExecution st1;
              visibleStages := prop "stages" data;
              loading := false;
              error := error st1;
              executionId := prop "execution_id" data;
              showQuestionnaire := showQuestionnaire st1;
              questions := questions st1;
              originalRequest := originalRequest st1 |}
  | None =>
      {| inputValue := inputValue st1;
         showExecution := showExecution st1;
         visibleStages := prop "stages" executionTrace;
         loading := false;
         error := Some "Using mock data (API unavailable)";
         executionId := executionId st1;
         showQuestionnaire := showQuestionnaire st1;
         questions := questions st1;
         originalRequest := originalRequest st1 |}
  end.

(** The fetch "throws or returns a non-ok response". *)
Definition api_failed (o : FetchOutcome) : bool :=
  match o with
  | FetchRejected => true
  | Response ok _ => negb ok
  end.

(** The elements of an array value ([[]] for anything else). *)
Definition elements_of (v : JSValue) : list JSValue :=
  match v with
  | JArr items => items
  | _ => []
  end.

End AppUI.

(** ** demo-ui/src/components/QuestionnaireModal.jsx *)

Module Questionnaire.

(** A question as the modal reads it.  The id is whatever value the JSON
    of the response carries; the modal uses it as a computed property key of
    [answers] and compares it with [===] against the keys that
    [Object.entries] returns. *)
Record Question : Type := mkQuestion {
  id : JSValue;
  question : JSValue;
  field : JSValue;
  step : JSValue;
  why_asking : JSValue
}.

(** *** The [answers] object

    A plain object with string values, as the list of its own properties
    in enumeration order: array-index keys in ascending numeric order
    first, then the other keys in the order of their creation. *)
Definition JSObject : Type := list (string * string).

Definition digit (c : ascii) : option N :=
  let n := N_of_ascii c in
  if ((48 <=? n) && (n <=? 57))%N then Some (n - 48)%N else None.

Fixpoint digits (s : string) (acc : N) : option N :=
  match s with
  | EmptyString => Some acc
  | String c rest =>
      match digit c with
      | Some d => digits rest (10 * acc + d)%N
      | None => None
      end
  end.

(** The array index a key denotes, if it is the canonical decimal form of
    an integer below 2^32 - 1. *)
Definition array_index (k : string) : option N :=
  match k with
  | EmptyString => None
  | String c rest =>
      if Ascii.eqb c "0"
      then (if String.eqb rest "" then Some 0%N else None)
      else match digits k 0 with
           | Some n => if (n <? 4294967295)%N then Some n else None
           | None => None
           end
  end.

Definition keys (o : JSObject) : list string := map fst o.        (* Object.keys *)
Definition entries (o : JSObject) : list (string * string) := o.  (* Object.entries *)
Definition get (k : string) (o : JSObject) : option string := assoc k o.

Definition has_key (k : string) (o : JSObject) : bool :=
  existsb (String.eqb k) (keys o).

(** Overwrite the value of an existing key, in place. *)
Fixpoint replace (k v : string) (o : JSObject) : JSObject :=
  match o with
  | [] => []
  | (k', v') :: rest =>
      if String.eqb k k' then (k, v) :: rest else (k', v') :: replace k v rest
  end.

(** Create an array-index key at its place among the index keys. *)
Fixpoint insert_index (n : N) (k v : string) (o : JSObject) : JSObject :=
  match o with
  | [] => [(k, v)]
  | (k', v') :: rest =>
      match array_index k' with
      | Some n' =>
          if (n' <? n)%N
          then (k', v') :: insert_index n k v rest
          else (k, v) :: (k', v') :: rest
      | None => (k, v) :: (k', v') :: rest
      end
  end.

(** [{...o, [k]: v}]. *)
Definition set (k v : string) (o : JSObject) : JSObject :=
  if has_key k o then replace k v o
  else match array_index k with
       | Some n => insert_index n k v o
       | None => o ++ [(k, v)]
       end.

(** The own properties of [Object.prototype], which a plain object such as
    [answers] inherits: a read of one of these names that finds no own
    property returns the inherited member (a function, or the prototype
    itself for [__proto__]), which is truthy. *)
Definition object_prototype_members : list string :=
  [ "constructor"; "__defineGetter__"; "__defineSetter__"; "hasOwnProperty";
    "__lookupGetter__"; "__lookupSetter__"; "isPrototypeOf";
    "propertyIsEnumerable"; "toString"; "valueOf"; "__proto__";
    "toLocaleString" ].

Definition inherits (k : string) : bool :=
  existsb (String.eqb k) object_prototype_members.

(** What a read [o[k]] can return, apart from [undefined]: the text of an
    own property, or the member inherited under that name. *)
Inductive Member : Type :=
| OwnText (text : string)
| Inherited (name : string).

(** [o[k]]: own properties first, then the prototype; [None] is
    [undefined]. *)
Definition member (k : string) (o : JSObject) : option Member :=
  match get k o with
  | Some text => Some (OwnText text)
  | None => if inherits k then Some (Inherited k) else None
  end.

(** *** The component *)

Record State : Type := mkState {
  answers : JSObject;
  currentQuestion : Z
}.

Definition initial : State := {| answers := []; currentQuestion := 0 |}.

Section Modal.

(** [String(v)] for a value that is not a string, a piece of the JavaScript
    runtime that is taken as given: it is what a computed property key
    becomes when the question id is a number, a boolean, [null], ... *)
Variable to_string : JSValue -> string.

(** The [questions] prop. *)
Variable questions : list Question.

(** The property key that a value denotes in [o[v]] and [{[v]: ...}]. *)
Definition property_key (v : JSValue) : string :=
  match v with
  | JStr s => s
  | _ => to_string v
  end.

Definition questions_length : Z := Z.of_nat (length questions).

(** [questions[i]]. *)
Definition question_at (i : Z) : option Question :=
  if (i <? 0)%Z then None else nth_error questions (Z.to_nat i).

Definition handleAnswer (questionId : JSValue) (answer : string) (st : State) : State :=
  {| answers := set (property_key questionId) answer (answers st);
     currentQuestion := currentQuestion st |}.

Definition handleNext (st : State) : State :=
  if (currentQuestion st <? questions_length - 1)%Z
  then {| answers := answers st; currentQuestion := currentQuestion st + 1 |}
  else st.

Definition handlePrevious (st : State) : State :=
  if (0 <? currentQuestion st)%Z
  then {| answers := answers st; currentQuestion := currentQuestion st - 1 |}
  else st.

(** One element of [formattedAnswers]. *)
Record FormattedAnswer : Type := mkFormattedAnswer {
  fa_id : string;
  fa_question : JSValue;
  fa_answer : string;
  fa_field : JSValue;
  fa_step : JSValue
}.

(** [questions.find(q => q.id === id)], where [id] is a key of [answers],
    a string: strict equality holds only for an id that is that string. *)
Definition find_question (i : string) : option Question :=
  List.find (fun q => is_str i (id q)) questions.

(** [question?.f]. *)
Definition opt_chain (q : option Question) (f : Question -> JSValue) : JSValue :=
  match q with
  | Some q => f q
  | None => JUndefined
  end.

Definition format_answer (entry : string * string) : FormattedAnswer :=
  let q := find_question (fst entry) in
  {| fa_id := fst entry;
     fa_question := opt_chain q question;
     fa_answer := snd entry;
     fa_field := opt_chain q field;
     fa_step := opt_chain q step |}.

(** [handleSubmit]: the argument it passes to [onSubmit]. *)
Definition handleSubmit (st : State) : list FormattedAnswer :=
  map format_answer (entries (answers st)).

(** [currentQ] and [currentAnswer]. *)
Definition currentQ (st : State) : option Question :=
  question_at (currentQuestion st).

(** [answers[currentQ?.id] || '']: the empty text when the read is
    [undefined] or the empty text. *)
Definition currentAnswer (st : State) : Member :=
  let key := property_key (match currentQ st with
                           | Some q => id q
                           | None => JUndefined
                           end) in
  match member key (answers st) with
  | None | Some (OwnText "") => OwnText ""
  | Some m => m
  end.

(** The footer shows the Next button before the last question and the
    Submit button otherwise. *)
Definition shows_submit (st : State) : bool :=
  negb (currentQuestion st <? questions_length - 1)%Z.

(** The [disabled] attributes. *)
Definition next_disabled (st : State) : bool :=   (* !currentAnswer *)
  match currentAnswer st with
  | OwnText text => String.eqb text ""
  | Inherited _ => false
  end.
Definition previous_disabled (st : State) : bool := (currentQuestion st =? 0)%Z.
Definition submit_disabled (st : State) : bool :=
  (Z.of_nat (length (keys (answers st))) <? questions_length)%Z.

(** The Submit All Answers button is on screen and enabled. *)
Definition submit_enabled (st : State) : bool :=
  shows_submit st && negb (submit_disabled st).

(** What the user can do with the modal. *)
Inductive Event : Type :=
| Change (text : string)      (* typing into the answer input *)
| ClickNext
| ClickPrevious
| ClickSubmit.

(** One event: the next state and what is passed to [onSubmit], if
    anything.  A control that is not rendered or is disabled does not
    react. *)
Definition dispatch (st : State) (e : Event) : State * option (list FormattedAnswer) :=
  match e with
  | Change text =>
      match currentQ st with
      | Some q => (handleAnswer (id q) text st, None)
      | None => (st, None)
      end
  | ClickNext =>
      if negb (shows_submit st) && negb (next_disabled st)
      then (handleNext st, None) else (st, None)
  | ClickPrevious =>
      if negb (previous_disabled st) then (handlePrevious st, None) else (st, None)
  | ClickSubmit =>
      if submit_enabled st then (st, Some (handleSubmit st)) else (st, None)
  end.

(** The state after a sequence of events, from the initial state. *)
Definition run (events : list Event) : State :=
  fold_left (fun st e => fst (dispatch st e)) events initial.

(** What every reachable state satisfies: the keys of [answers] are
    distinct and each is the property key of the id of one of the
    questions. *)
Definition answers_invariant (st : State) : Prop :=
  List.NoDup (keys (answers st))
  /\ forall k, In k (keys (answers st)) ->
               exists q, In q questions /\ property_key (id q) = k.

End Modal.

(** A questionnaire of two questions and a session that answers both. *)
Definition sample_questions : list Question :=
  [ {| id := JStr "destination"; question := JStr "Where are you travelling to?";
       field := JStr "destination"; step := JNum 1;
       why_asking := JStr "Needed to search for hotels" |};
    {| id := JStr "nights"; question := JStr "How many nights?";
       field := JStr "nights"; step := JNum 2; why_asking := JUndefined |} ].

Definition sample_session : list Event :=
  [ Change "Goa"; ClickNext; Change "3" ].


(** [String(v)] on the values that the sample questionnaires convert to
    property keys: [undefined], [null], the booleans and the number 1. *)
Definition sample_to_string (v : JSValue) : string :=
  match v with
  | JUndefined => "undefined"
  | JNull => "null"
  | JBool b => if b then "true" else "false"
  | JNum q => if Qeq_bool q 1 then "1" else ""
  | _ => ""
  end.

End Questionnaire.

(** ** demo-ui/src/components/StageCard.jsx: navigation *)

Module StageCard.

(** The scroll geometry that [checkScrollPosition] reads: JavaScript
    numbers, that is IEEE 754 binary64 values. *)
Record ScrollMetrics : Type := mkScrollMetrics {
  scrollHeight : float;      (* document.documentElement.scrollHeight *)
  docScrollTop : float;      (* document.documentElement.scrollTop *)
  bodyScrollTop : float;     (* document.body.scrollTop *)
  clientHeight : float       (* document.documentElement.clientHeight *)
}.

(** [document.documentElement.scrollTop || document.body.scrollTop]: the
    first operand unless it is falsy (a zero or NaN). *)
Definition scrollTop (m : ScrollMetrics) : float :=
  if PrimFloat.eqb (docScrollTop m) 0 || PrimFloat.is_nan (docScrollTop m)
  then bodyScrollTop m else docScrollTop m.

(** [scrollHeight - scrollTop - clientHeight < 150], in floating-point
    arithmetic. *)
Definition near_bottom (m : ScrollMetrics) : bool :=
  PrimFloat.ltb
    (PrimFloat.sub (PrimFloat.sub (scrollHeight m) (scrollTop m)) (clientHeight m))
    150.

Definition stage_type (stage : JSValue) : JSValue := prop "type" stage.
Definition status (stage : JSValue) : JSValue := prop "status" (prop "payload" stage).
Definition payment_url (stage : JSValue) : JSValue := prop "payment_url" (prop "payload" stage).

(** The guard shared by the two effects:
    [stage.type === 'MCP_OUTCOME' && stage.payload.status === 'APPROVED'
     && stage.payload.payment_url]. *)
Definition redirect_condition (stage : JSValue) : bool :=
  is_str "MCP_OUTCOME" (stage_type stage)
  && is_str "APPROVED" (status stage)
  && truthy (payment_url stage).

(** The approve-and-pay button of the MCP_OUTCOME case is rendered when
    [requiresApproval && stage.payload.payment_url]. *)
Definition shows_approve_payment (stage : JSValue) : bool :=
  is_str "MCP_OUTCOME" (stage_type stage)
  && is_str "REQUIRES_APPROVAL" (status stage)
  && truthy (payment_url stage).

(** The booking buttons are rendered for BOOKING_APPROVAL stages. *)
Definition shows_booking_actions (stage : JSValue) : bool :=
  is_str "BOOKING_APPROVAL" (stage_type stage).

(** The component instance: its prop, its state hook, and what its effects
    have registered (the scroll listener, the pending redirect timer with
    the url its closure holds). *)
Record CardState : Type := mkCardState {
  stage : JSValue;
  hasScrolledToBottom : bool;
  listening : bool;
  timer : option JSValue;
  mounted : bool
}.

(** What the card does to the browser location. *)
Inductive Navigation : Type :=
| AutoRedirect (url : JSValue)     (* the timer of the second effect *)
| ClickRedirect (url : JSValue)    (* onClick of the approve-and-pay button *)
| Reload.                          (* handleModifySearch *)

(** The url a navigation assigns to [window.location.href]. *)
Definition target (n : Navigation) : option JSValue :=
  match n with
  | AutoRedirect url | ClickRedirect url => Some url
  | Reload => None
  end.

(** The second effect, with its cleanup: the pending timer is cleared and,
    under the guard, a new one is started. *)
Definition redirect_effect (st : CardState) : CardState :=
  {| stage := stage st;
     hasScrolledToBottom := hasScrolledToBottom st;
     listening := listening st;
     timer := if hasScrolledToBottom st && redirect_condition (stage st)
              then Some (payment_url (stage st)) else None;
     mounted := mounted st |}.

(** [checkScrollPosition]: [setHasScrolledToBottom(true)] near the bottom;
    the second effect runs again when the state changes. *)
Definition checkScrollPosition (m : ScrollMetrics) (st : CardState) : CardState :=
  if near_bottom m && negb (hasScrolledToBottom st)
  then redirect_effect
         {| stage := stage st;
            hasScrolledToBottom := true;
            listening := listening st;
            timer := timer st;
            mounted := mounted st |}
  else st.

(** Both effects after a commit in which [stage] is new (the mount, or a
    changed prop): the first effect checks the position at once and adds
    the scroll listener under the guard, the second (re)starts the timer. *)
Definition commit (m : ScrollMetrics) (st : CardState) : CardState :=
  let guarded := redirect_condition (stage st) in
  redirect_effect
    {| stage := stage st;
       hasScrolledToBottom := hasScrolledToBottom st || (guarded && near_bottom m);
       listening := guarded;
       timer := None;
       mounted := true |}.

Definition mount (stage0 : JSValue) (m : ScrollMetrics) : CardState :=
  commit m {| stage := stage0;
              hasScrolledToBottom := false;
              listening := false;
              timer := None;
              mounted := false |}.

Inductive Event : Type :=
| Scroll (m : ScrollMetrics)                         (* window scroll event *)
| TimerFires                                         (* the 1500 ms timeout elapses *)
| StageChanged (stage' : JSValue) (m : ScrollMetrics) (* re-render with a new prop *)
| ClickApprovePayment
| ClickModifySearch
| Unmount.

(** One event: the next state and the navigations it causes. *)
Definition step (st : CardState) (e : Event) : CardState * list Navigation :=
  if negb (mounted st) then (st, []) else
  match e with
  | Scroll m =>
      if listening st then (checkScrollPosition m st, []) else (st, [])
  | TimerFires =>
      match timer st with
      | Some url =>
          ({| stage := stage st;
              hasScrolledToBottom := hasScrolledToBottom st;
              listening := listening st;
              timer := None;
              mounted := mounted st |},
           [AutoRedirect url])
      | None => (st, [])
      end
  | StageChanged stage' m =>
      (commit m {| stage := stage';
                   hasScrolledToBottom := hasScrolledToBottom st;
                   listening := false;
                   timer := None;
                   mounted := true |},
       [])
  | ClickApprovePayment =>
      if shows_approve_payment (stage st)
      then (st, [ClickRedirect (payment_url (stage st))]) else (st, [])
  | ClickModifySearch =>
      if shows_booking_actions (stage st) then (st, [Reload]) else (st, [])
  | Unmount =>
      ({| stage := stage st;
          hasScrolledToBottom := hasScrolledToBottom st;
          listening := false;
          timer := None;
          mounted := false |},
       [])
  end.

(** The state after a sequence of events. *)
Definition exec (st : CardState) (events : list Event) : CardState :=
  fold_left (fun st e => fst (step st e)) events st.

(** The scroll geometries that the events of a history carry. *)
Definition observed (events : list Event) : list ScrollMetrics :=
  flat_map (fun e => match e with
                     | Scroll m | StageChanged _ m => [m]
                     | _ => []
                     end) events.

(** Sample stages and pages: an outcome that requires approval and an
    approved one, both with a payment url; a page scrolled to the top of a
    long document and a page short enough to show its bottom. *)
Definition approval_stage : JSValue :=
  JObj [("type", JStr "MCP_OUTCOME");
        ("payload", JObj [("status", JStr "REQUIRES_APPROVAL");
                          ("payment_url", JStr "https://pay.example/checkout")])].

Definition approved_stage : JSValue :=
  JObj [("type", JStr "MCP_OUTCOME");
        ("payload", JObj [("status", JStr "APPROVED");
                          ("payment_url", JStr "https://pay.example/checkout")])].

Definition long_page : ScrollMetrics :=
  {| scrollHeight := 2000%float; docScrollTop := 0%float; bodyScrollTop := 0%float;
     clientHeight := 800%float |}.

Definition short_page : ScrollMetrics :=
  {| scrollHeight := 700%float; docScrollTop := 0%float; bodyScrollTop := 0%float;
     clientHeight := 700%float |}.

(** What holds of a mounted card after a history of scroll observations:
    a pending timer was started under the guard, for the url of the
    current stage, after the scrolled flag was set; and the flag is only
    set once a position near the bottom has been observed. *)
Definition card_invariant (seen : list ScrollMetrics) (st : CardState) : Prop :=
  (forall url, timer st = Some url ->
               redirect_condition (stage st) = true
               /\ url = payment_url (stage st)
               /\ hasScrolledToBottom st = true)
  /\ (hasScrolledToBottom st = true ->
      exists m, In m seen /\ near_bottom m = true)
  /\ (listening st = true -> redirect_condition (stage st) = true).

End StageCard.

(** ** App.jsx: the other handlers and the stage list of a render *)

Module AppSession.

Import AppUI.

(** [handleReset]. *)
Definition handleReset (st : AppState) : AppState :=
  {| inputValue := inputValue st;
     showExecution := false;
     visibleStages := JArr [];
     loading := loading st;
     error := None;
     executionId := JNull;
     showQuestionnaire := showQuestionnaire st;
     questions := questions st;
     originalRequest := originalRequest st |}.

(** The stage cards of a render,
    [showExecution && ... visibleStages.map((stage, index) => <StageCard .../>)],
    as the list of their [index] and [stage] props.  [None] stands for the
    TypeError that the call of [map] throws when [visibleStages] is not an
    array. *)
Definition stage_cards (st : AppState) : option (list (nat * JSValue)) :=
  if showExecution st
  then match visibleStages st with
       | JArr items => Some (combine (seq 0 (length items)) items)
       | _ => None
       end
  else Some [].

Section Submit.

(** Two pieces of the JavaScript runtime that the handler relies on and
    that are taken as given: [String(v)], which [new Error(v)] applies to
    its argument, and the message of the TypeError raised by reading
    property [k] of [null] or [undefined]. *)
Variable to_string : JSValue -> string.
Variable type_error_message : JSValue -> string -> string.

(** What the network does to the request of [handleQuestionnaireSubmit]:
    [fetch] rejects with an error that has a message, or resolves to a
    response with its [ok] flag whose [json()] rejects with an error
    ([inl message]) or resolves to the parsed body. *)
Inductive SubmitOutcome : Type :=
| SubmitRejected (message : string)
| SubmitResponse (ok : bool) (json : string + JSValue).

(** [v.k] inside the [try] block: the message of the TypeError, or the
    value read. *)
Definition read (k : string) (v : JSValue) : string + JSValue :=
  match v with
  | JUndefined | JNull => inl (type_error_message v k)
  | _ => inr (prop k v)
  end.

(** The [try] block up to its first state update: the message of the
    error it throws, or the [data] it goes on with. *)
Definition try_submit (o : SubmitOutcome) : string + JSValue :=
  match o with
  | SubmitRejected message => inl message
  | SubmitResponse _ (inl message) => inl message
  | SubmitResponse false (inr data) =>
      match read "error" data with
      | inl message => inl message
      | inr e => inl (if truthy e then to_string e else "Failed to execute request")
      end
  | SubmitResponse true (inr data) =>
      match read "execution_id" data with
      | inl message => inl message
      | inr _ => inr data
      end
  end.

(** [handleQuestionnaireSubmit(answers)], given the outcome of its request
    (the answers only travel in the request body). *)
Definition handleQuestionnaireSubmit (answers : JSValue) (o : SubmitOutcome)
    (st : AppState) : AppState :=
  match try_submit o with
  | inr data =>
      {| inputValue := inputValue st;
         showExecution := showExecution st;
         visibleStages := prop "stages" data;
         loading := false;
         error := error st;
         executionId := prop "execution_id" data;
         showQuestionnaire := false;
         questions := questions st;
         originalRequest := originalRequest st |}
  | inl message =>
      {| inputValue := inputValue st;
         showExecution := showExecution st;
         visibleStages := visibleStages st;
         loading := false;
         error := Some (if String.eqb message "" then "Failed to process answers"
                        else message);
         executionId := executionId st;
         showQuestionnaire := false;
         questions := questions st;
         originalRequest := originalRequest st |}
  end.

(** The request failed: [fetch] rejected, [json()] rejected, or the
    response is not ok. *)
Definition submit_failed (o : SubmitOutcome) : bool :=
  match o with
  | SubmitRejected _ => true
  | SubmitResponse _ (inl _) => true
  | SubmitResponse ok (inr _) => negb ok
  end.

End Submit.

(** Whether a value is an array. *)
Definition is_array (v : JSValue) : bool :=
  match v with
  | JArr _ => true
  | _ => false
  end.

End AppSession.

(** ** QuestionnaireModal.jsx: position, coverage and order *)

Module QuestionnaireView.

Import Questionnaire.

(** The property keys of the ids of the questions, in the order of the
    [questions] prop. *)
Definition question_ids (to_string : JSValue -> string) (questions : list Question)
  : list string :=
  map (fun q => property_key to_string (id q)) questions.

(** [currentQuestion] is a valid index of [questions] (0 when there is no
    question). *)
Definition in_range (questions : list Question) (st : State) : Prop :=
  (0 <= currentQuestion st < Z.max 1 (questions_length questions))%Z.

(** Every question before the current one has a truthy read in [answers]:
    a stored answer that is not empty, or, with no stored answer, a name
    that [answers] inherits from [Object.prototype]. *)
Definition answered_before (to_string : JSValue -> string) (questions : list Question)
    (st : State) : Prop :=
  forall i q, (0 <= i < currentQuestion st)%Z ->
              question_at questions i = Some q ->
              (exists a, get (property_key to_string (id q)) (answers st) = Some a
                         /\ a <> "")
              \/ (get (property_key to_string (id q)) (answers st) = None
                  /\ inherits (property_key to_string (id q)) = true).

(** None of the keys is an array index. *)
Definition no_index (ks : list string) : bool :=
  forallb (fun k => match array_index k with
                    | Some _ => false
                    | None => true
                    end) ks.

(** The keys are in the order in which JavaScript enumerates own
    properties: array indices from [lower] upwards in ascending order, then
    keys that are not array indices. *)
Fixpoint ascending (lower : N) (ks : list string) : bool :=
  match ks with
  | [] => true
  | k :: rest =>
      match array_index k with
      | Some n => (lower <=? n)%N && ascending n rest
      | None => no_index rest
      end
  end.

(** A questionnaire in which two questions share an id. *)
Definition clashing_questions : list Question :=
  [ {| id := JStr "city"; question := JStr "From which city?";
       field := JStr "origin"; step := JNum 1; why_asking := JUndefined |};
    {| id := JStr "city"; question := JStr "To which city?";
       field := JStr "destination"; step := JNum 1; why_asking := JUndefined |} ].

(** A questionnaire whose first question is named after a member of
    [Object.prototype]. *)
Definition prototype_named_questions : list Question :=
  [ {| id := JStr "constructor"; question := JStr "Who builds the house?";
       field := JStr "constructor"; step := JNum 1; why_asking := JUndefined |};
    {| id := JStr "budget"; question := JStr "What is the budget?";
       field := JStr "budget"; step := JNum 2; why_asking := JUndefined |} ].

End QuestionnaireView.

(** ** StageCard.jsx: what the outcome card shows, and its navigations over time *)

Module StageCardView.

Import StageCard.

(** The navigations caused by a sequence of events, in order. *)
Fixpoint trace (st : CardState) (events : list Event) : list Navigation :=
  match events with
  | [] => []
  | e :: rest => snd (step st e) ++ trace (fst (step st e)) rest
  end.

Definition is_auto_redirect (n : Navigation) : bool :=
  match n with
  | AutoRedirect _ => true
  | _ => false
  end.

Definition is_stage_change (e : Event) : bool :=
  match e with
  | StageChanged _ _ => true
  | _ => false
  end.

Definition failures (stage : JSValue) : JSValue := prop "failures" (prop "payload" stage).

(** The three conditional panels of the MCP_OUTCOME case of
    [renderPayload]: [isApproved && stage.payload.payment_url],
    [requiresApproval], and [isBlocked && stage.payload.failures]. *)
Definition shows_payment_redirect (stage : JSValue) : bool :=
  is_str "MCP_OUTCOME" (stage_type stage)
  && (is_str "APPROVED" (status stage) && truthy (payment_url stage)).

Definition shows_approval_required (stage : JSValue) : bool :=
  is_str "MCP_OUTCOME" (stage_type stage)
  && is_str "REQUIRES_APPROVAL" (status stage).

Definition shows_failure_details (stage : JSValue) : bool :=
  is_str "MCP_OUTCOME" (stage_type stage)
  && (is_str "BLOCKED" (status stage) && truthy (failures stage)).

(** The message inside the payment panel: the prompt to scroll down while
    [!hasScrolledToBottom], the redirect notice afterwards. *)
Inductive RedirectMessage : Type := ScrollPrompt | Redirecting.

Definition redirect_message (st : CardState) : option RedirectMessage :=
  if shows_payment_redirect (stage st)
  then Some (if hasScrolledToBottom st then Redirecting else ScrollPrompt)
  else None.

(** The state of a mounted card with stage [stage0] that passes the guard,
    after scrolling only: the listener is on, and the timer is pending
    exactly when a position near the bottom has been seen. *)
Definition scrolled (stage0 : JSValue) (seen_bottom : bool) : CardState :=
  {| stage := stage0;
     hasScrolledToBottom := seen_bottom;
     listening := true;
     timer := if seen_bottom then Some (payment_url stage0) else None;
     mounted := true |}.

End StageCardView.

(** * Properties *)

(** ** The backend payment policy *)

Section BackendFacts.

Import Backend PolicyEngine.

(** The verdict depends on the amount alone. *)
Lemma evaluate_payment_policy_eq (amount : Q) (merchant : string) :
  evaluate_payment_policy amount merchant
  = if Qle_bool amount 5000 then EXECUTED else BLOCKED.
Proof.
  unfold evaluate_payment_policy. now destruct (Qle_bool amount 5000).
Qed.

Lemma blocked_above_5000 (amount : Q) (merchant : string) :
  (5000 < amount)%Q -> evaluate_payment_policy amount merchant = BLOCKED.
Proof.
  intros Hlt. rewrite evaluate_payment_policy_eq.
  destruct (Qle_bool amount 5000) eqn:Hle; [|reflexivity].
  apply Qle_bool_iff in Hle. exfalso. eapply Qlt_not_le; eassumption.
Qed.

Lemma executed_up_to_5000 (amount : Q) (merchant : string) :
  (amount <= 5000)%Q -> evaluate_payment_policy amount merchant = EXECUTED.
Proof.
  intros Hle. rewrite evaluate_payment_policy_eq.
  apply Qle_bool_iff in Hle. now rewrite Hle.
Qed.

(** The fields of a payment transaction. *)
Lemma payment_transaction_recipient_type (amount : Q) (merchant : string) :
  payment_transaction amount merchant !! "recipient_type"
  = Some (SStr (if is_verified merchant then "VERIFIED_MERCHANT" else "UNVERIFIED")).
Proof. unfold payment_transaction. apply lookup_insert_eq. Qed.

Lemma payment_transaction_amount (amount : Q) (merchant : string) :
  payment_transaction amount merchant !! "amount" = Some (SNum amount).
Proof.
  unfold payment_transaction.
  rewrite lookup_insert_ne by discriminate. apply lookup_insert_eq.
Qed.

(** The ALLOW tree of the policy file on a payment transaction: the limit
    is 50000 for a verified merchant and 5000 otherwise. *)
Lemma payment_allow_tree_eq (amount : Q) (merchant : string) :
  fst (evaluate_node payment_allow_tree (payment_transaction amount merchant))
  = Qle_bool amount (max_amount merchant).
Proof.
  unfold max_amount.
  cbn [payment_allow_tree evaluate_node fst snd condition].
  unfold evaluate, check.
  cbn [field operator value].
  rewrite payment_transaction_recipient_type, payment_transaction_amount.
  destruct (is_verified merchant); cbn;
    destruct (Qle_bool amount _); reflexivity.
Qed.

(** Whenever the backend check lets a payment through, the ALLOW rule of
    the policy file matches it: the check never executes a payment that
    the policy does not allow. *)
Lemma executed_is_allowed (amount : Q) (merchant : string) :
  evaluate_payment_policy amount merchant = EXECUTED ->
  fst (evaluate_node payment_allow_tree (payment_transaction amount merchant)) = true.
Proof.
  rewrite evaluate_payment_policy_eq, payment_allow_tree_eq.
  destruct (Qle_bool amount 5000) eqn:Hle; [intros _|discriminate].
  apply Qle_bool_iff in Hle. apply Qle_bool_iff.
  unfold max_amount. destruct (is_verified merchant); [|assumption].
  eapply Qle_trans; [eassumption|]. now apply Qle_bool_iff.
Qed.

(** C2, evaluated on the code.  WATER_UTILITY is a verified merchant and
    20000 is at most 50000, so the ALLOW rule of the policy file matches
    the payment; [evaluate_payment_policy] nevertheless returns BLOCKED,
    because it compares the amount with 5000 and not with the limit it has
    computed for the merchant. *)
Theorem verified_merchant_blocked_above_5000 :
  is_verified "WATER_UTILITY" = true
  /\ max_amount "WATER_UTILITY" = 50000%Q
  /\ fst (evaluate_node payment_allow_tree
            (payment_transaction 20000 "WATER_UTILITY")) = true
  /\ evaluate_payment_policy 20000 "WATER_UTILITY" = BLOCKED.
Proof.
  split; [reflexivity|]. split; [reflexivity|]. split.
  - rewrite payment_allow_tree_eq. reflexivity.
  - apply blocked_above_5000. reflexivity.
Qed.

(** The same divergence for every verified merchant and every amount
    above 5000 and at most 50000. *)
Lemma verified_merchant_limit_not_applied (amount : Q) (merchant : string) :
  is_verified merchant = true -> (5000 < amount)%Q -> (amount <= 50000)%Q ->
  fst (evaluate_node payment_allow_tree (payment_transaction amount merchant)) = true
  /\ evaluate_payment_policy amount merchant = BLOCKED.
Proof.
  intros Hv Hlo Hhi. split.
  - rewrite payment_allow_tree_eq. unfold max_amount. rewrite Hv.
    now apply Qle_bool_iff.
  - now apply blocked_above_5000.
Qed.



(** On the code, a payment of 6200 to a merchant that
    [evaluate_payment_policy] itself classifies as unverified is over that
    merchant's limit and BLOCKED. *)
Lemma unverified_merchant_blocked_6200 (merchant : string) :
  is_verified merchant = false ->
  max_amount merchant = 5000%Q
  /\ evaluate_payment_policy 6200 merchant = BLOCKED.
Proof.
  intros Hu. unfold max_amount. rewrite Hu. split; [reflexivity|].
  apply blocked_above_5000. reflexivity.
Qed.

(** Under the policy file, with the recipient classified UNVERIFIED, the
    two scenarios come out the same way as on the code: 6200 matches no
    ALLOW rule, 3000 does. *)
Lemma unverified_recipient_policy :
  verdict (evaluate_policy policies "execute_payment"
             (<[ "recipient_type" := SStr "UNVERIFIED" ]> (<[ "amount" := SNum 6200 ]> ∅)))
  = BLOCKED
  /\ verdict (evaluate_policy policies "execute_payment"
                (<[ "recipient_type" := SStr "UNVERIFIED" ]> (<[ "amount" := SNum 3000 ]> ∅)))
     = EXECUTED.
Proof. split; vm_compute; reflexivity. Qed.

(** C4 (Scenario B).  The same request with amount 3000 is EXECUTED, for
    ELECTRICITY_BOARD and for every other merchant. *)
Theorem scenario_B_executed :
  evaluate_payment_policy 3000 "ELECTRICITY_BOARD" = EXECUTED
  /\ forall merchant, evaluate_payment_policy 3000 merchant = EXECUTED.
Proof.
  split; [|intros merchant]; apply executed_up_to_5000; discriminate.
Qed.

End BackendFacts.

(** ** The policy engine *)

Section PolicyEngineFacts.

Import PolicyEngine.

Lemma in_fired rules t tx r :
  In r (fired rules t tx) <-> In r rules /\ tool r = t /\ fires tx r = true.
Proof.
  unfold fired, has_tool. rewrite !filter_In, String.eqb_eq. tauto.
Qed.

(** The classification of section 4.3 as a decision on the fired rules. *)
Lemma verdict_eq rules t tx :
  verdict (evaluate_policy rules t tx)
  = if existsb is_blocking (fired rules t tx) then BLOCKED
    else if existsb needs_approval (fired rules t tx) then REQUIRES_APPROVAL
    else if existsb is_allow (fired rules t tx) then EXECUTED
    else BLOCKED.
Proof.
  unfold evaluate_policy. fold (fired rules t tx).
  assert (Hex : forall (f : PolicyRule -> bool) l,
             existsb f l = match List.filter f l with [] => false | _ => true end).
  { intros f l. induction l as [|x l IH]; [reflexivity|].
    cbn. destruct (f x); [reflexivity|exact IH]. }
  rewrite !Hex.
  destruct (List.filter is_blocking _); [|reflexivity].
  destruct (List.filter needs_approval _); [|reflexivity].
  destruct (List.filter is_allow _); reflexivity.
Qed.

Lemma reason_eq rules t tx :
  reason (evaluate_policy rules t tx)
  = if existsb is_blocking (fired rules t tx) || existsb needs_approval (fired rules t tx)
       || existsb is_allow (fired rules t tx)
    then None else Some "NO_MATCHING_ALLOW_RULE".
Proof.
  unfold evaluate_policy. fold (fired rules t tx).
  assert (Hex : forall (f : PolicyRule -> bool) l,
             existsb f l = match List.filter f l with [] => false | _ => true end).
  { intros f l. induction l as [|x l IH]; [reflexivity|].
    cbn. destruct (f x); [reflexivity|exact IH]. }
  rewrite !Hex.
  destruct (List.filter is_blocking _); [|reflexivity].
  destruct (List.filter needs_approval _); [|reflexivity].
  destruct (List.filter is_allow _); reflexivity.
Qed.

Lemma existsb_false_iff {A : Type} (f : A -> bool) (l : list A) :
  existsb f l = false <-> forall x, In x l -> f x = false.
Proof.
  split.
  - intros Hex x Hin. destruct (f x) eqn:Hfx; [|reflexivity].
    rewrite <- Hex. symmetry. apply existsb_exists. eauto.
  - intros Hall. destruct (existsb f l) eqn:Hex; [|reflexivity].
    apply existsb_exists in Hex. destruct Hex as (x & Hin & Hfx).
    rewrite (Hall x Hin) in Hfx. discriminate.
Qed.

(** The rule carries one of the severities. *)
Lemma severity_none (r : PolicyRule) :
  severity r = None -> is_blocking r = false /\ needs_approval r = false.
Proof. unfold is_blocking, needs_approval. intros ->. split; reflexivity. Qed.

(** C1 (default-deny).  The policy engine returns BLOCKED with reason
    NO_MATCHING_ALLOW_RULE for a tool that has no rules, and more generally
    whenever none of the tool's fired rules is an ALLOW rule or carries a
    severity; and a verdict EXECUTED always comes with a rule of the tool
    whose action is ALLOW and whose tree is true. *)
Theorem default_deny :
  (forall rules t tx,
      (forall r, In r rules -> tool r <> t) ->
      verdict (evaluate_policy rules t tx) = BLOCKED
      /\ reason (evaluate_policy rules t tx) = Some "NO_MATCHING_ALLOW_RULE")
  /\ (forall rules t tx,
        (forall r, In r rules -> tool r = t -> fires tx r = true ->
                   action r <> ALLOW /\ severity r = None) ->
        verdict (evaluate_policy rules t tx) = BLOCKED
        /\ reason (evaluate_policy rules t tx) = Some "NO_MATCHING_ALLOW_RULE")
  /\ (forall rules t tx,
        verdict (evaluate_policy rules t tx) = EXECUTED ->
        exists r, In r rules /\ tool r = t /\ action r = ALLOW /\ fires tx r = true).
Proof.
  assert (Hgen : forall rules t tx,
             (forall r, In r rules -> tool r = t -> fires tx r = true ->
                        action r <> ALLOW /\ severity r = None) ->
             verdict (evaluate_policy rules t tx) = BLOCKED
             /\ reason (evaluate_policy rules t tx) = Some "NO_MATCHING_ALLOW_RULE").
  { intros rules t tx Hnone.
    assert (Hb : existsb is_blocking (fired rules t tx) = false).
    { apply existsb_false_iff. intros r Hr. apply in_fired in Hr.
      destruct Hr as (Hin & Ht & Hf). now apply severity_none, Hnone. }
    assert (Ha : existsb needs_approval (fired rules t tx) = false).
    { apply existsb_false_iff. intros r Hr. apply in_fired in Hr.
      destruct Hr as (Hin & Ht & Hf). now apply severity_none, Hnone. }
    assert (Hal : existsb is_allow (fired rules t tx) = false).
    { apply existsb_false_iff. intros r Hr. apply in_fired in Hr.
      destruct Hr as (Hin & Ht & Hf). destruct (Hnone r Hin Ht Hf) as [Hact _].
      unfold is_allow. destruct (action r); [contradiction|reflexivity]. }
    rewrite verdict_eq, reason_eq, Hb, Ha, Hal. split; reflexivity. }
  split; [|split].
  - intros rules t tx Hnone. apply Hgen. intros r Hin Ht. now apply Hnone in Hin.
  - exact Hgen.
  - intros rules t tx Hv. rewrite verdict_eq in Hv.
    destruct (existsb is_blocking _); [discriminate|].
    destruct (existsb needs_approval _); [discriminate|].
    destruct (existsb is_allow (fired rules t tx)) eqn:Hal; [|discriminate].
    apply existsb_exists in Hal. destruct Hal as (r & Hr & Hallow).
    apply in_fired in Hr. destruct Hr as (Hin & Ht & Hf).
    exists r. repeat split; try assumption.
    unfold is_allow in Hallow. destruct (action r); [reflexivity|discriminate].
Qed.

Lemma default_deny_witness :
  (verdict (evaluate_policy policies "book_flight" ∅) = BLOCKED
   /\ reason (evaluate_policy policies "book_flight" ∅) = Some "NO_MATCHING_ALLOW_RULE")
  /\ (verdict (evaluate_policy policies "execute_payment"
                 (payment_transaction 6200 "CORNER_SHOP")) = BLOCKED
      /\ reason (evaluate_policy policies "execute_payment"
                   (payment_transaction 6200 "CORNER_SHOP"))
         = Some "NO_MATCHING_ALLOW_RULE")
  /\ (exists r, In r policies /\ tool r = "execute_payment" /\ action r = ALLOW
                /\ fires (payment_transaction 3000 "CORNER_SHOP") r = true).
Proof.
  destruct default_deny as (Hzero & Hnone & Hexec).
  split; [|split].
  - apply Hzero. intros r [<-|[]]. discriminate.
  - apply Hnone. intros r [<-|[]] _ Hfires.
    vm_compute in Hfires. discriminate.
  - apply Hexec. vm_compute. reflexivity.
Defined.

(** C5 (severity precedence).  When a rule of the tool with severity
    REQUIRE_HUMAN_APPROVAL fires and no fired rule of the tool has severity
    BLOCK or BLOCK_AND_LOG, the verdict is REQUIRES_APPROVAL, not EXECUTED,
    whatever ALLOW rules fire as well and in whatever order the rules are
    declared. *)
Theorem approval_precedence rules rules' t tx :
  Permutation rules rules' ->
  (exists r, In r rules /\ tool r = t /\ fires tx r = true
             /\ severity r = Some REQUIRE_HUMAN_APPROVAL) ->
  (forall r, In r rules -> tool r = t -> fires tx r = true ->
             severity r <> Some BLOCK /\ severity r <> Some BLOCK_AND_LOG) ->
  verdict (evaluate_policy rules' t tx) = REQUIRES_APPROVAL
  /\ verdict (evaluate_policy rules' t tx) <> EXECUTED.
Proof.
  intros Hperm (r & Hin & Ht & Hf & Hsev) Hnoblock.
  assert (Hv : verdict (evaluate_policy rules' t tx) = REQUIRES_APPROVAL).
  { rewrite verdict_eq.
    assert (Hb : existsb is_blocking (fired rules' t tx) = false).
    { apply existsb_false_iff. intros r' Hr'. apply in_fired in Hr'.
      destruct Hr' as (Hin' & Ht' & Hf').
      apply (Permutation_in _ (Permutation_sym Hperm)) in Hin'.
      destruct (Hnoblock r' Hin' Ht' Hf') as [H1 H2].
      unfold is_blocking. destruct (severity r') as [[| |]|]; congruence. }
    assert (Ha : existsb needs_approval (fired rules' t tx) = true).
    { apply existsb_exists. exists r. split.
      - apply in_fired. repeat split; try assumption.
        now apply (Permutation_in _ Hperm).
      - unfold needs_approval. now rewrite Hsev. }
    now rewrite Hb, Ha. }
  split; [exact Hv|]. rewrite Hv. discriminate.
Qed.

Lemma approval_precedence_witness :
  verdict (evaluate_policy (review_rule :: policies) "execute_payment"
             (payment_transaction 3000 "CORNER_SHOP")) = REQUIRES_APPROVAL
  /\ verdict (evaluate_policy (review_rule :: policies) "execute_payment"
                (payment_transaction 3000 "CORNER_SHOP")) <> EXECUTED.
Proof.
  apply (approval_precedence (policies ++ [review_rule]) (review_rule :: policies)).
  - symmetry. apply Permutation_cons_append.
  - exists review_rule. repeat split. right. left. reflexivity.
  - intros r [<-|[<-|[]]] _ _; split; discriminate.
Defined.

(** C6 (missing field).  A condition evaluated on a record that lacks its
    field is false, with the diagnostic FieldMissing, whatever its operator
    and value; the evaluator is a total function, so there is no other
    outcome. *)
Theorem missing_field_is_false (c : Condition) (record : gmap string Scalar) :
  record !! field c = None ->
  evaluate c record = false /\ check c record = FieldMissing.
Proof.
  intros Hmissing. unfold evaluate, check. rewrite Hmissing. split; reflexivity.
Qed.

Lemma missing_field_is_false_witness :
  evaluate {| field := "amount"; operator := LESS_THAN_OR_EQUAL;
              value := VScalar (SNum 5000) |}
           (<[ "merchant" := SStr "ELECTRICITY_BOARD" ]> ∅) = false
  /\ check {| field := "amount"; operator := LESS_THAN_OR_EQUAL;
              value := VScalar (SNum 5000) |}
           (<[ "merchant" := SStr "ELECTRICITY_BOARD" ]> ∅) = FieldMissing.
Proof.
  apply missing_field_is_false. vm_compute. reflexivity.
Defined.

End PolicyEngineFacts.

(** ** App.jsx: fallback to the mock trace *)

Section AppFacts.

Import AppUI.

Lemma api_failed_throws (o : FetchOutcome) :
  api_failed o = true -> try_fetch o = None.
Proof. destruct o as [|[|] body]; [reflexivity|discriminate|reflexivity]. Qed.

(** Every exception of the [try] block ends in the mock trace. *)
Lemma handleRun_catch (o : FetchOutcome) (st : AppState) :
  try_fetch o = None ->
  error (handleRun o st) = Some "Using mock data (API unavailable)"
  /\ visibleStages (handleRun o st) = JArr executionTrace_stages
  /\ loading (handleRun o st) = false.
Proof. intros Hthrow. unfold handleRun. rewrite Hthrow. repeat split. Qed.

(** C8 (fallback on API failure).  When the fetch of [handleRun] rejects or
    its response is not ok, the error message is 'Using mock data (API
    unavailable)' and the visible stages are the six stages of the mock
    trace, which ends in MCP_OUTCOME with status BLOCKED and reason
    MAX_TRANSACTION_AMOUNT; the stage list is not empty. *)
Theorem fallback_on_api_failure (o : FetchOutcome) (st : AppState) :
  api_failed o = true ->
  error (handleRun o st) = Some "Using mock data (API unavailable)"
  /\ visibleStages (handleRun o st) = JArr executionTrace_stages
  /\ map (prop "type") (elements_of (visibleStages (handleRun o st)))
     = [ JStr "USER_INPUT"; JStr "REASONING"; JStr "PLAN"; JStr "INTENT_TOKEN";
         JStr "POLICY_EVALUATION"; JStr "MCP_OUTCOME" ]
  /\ (exists earlier last,
        elements_of (visibleStages (handleRun o st)) = earlier ++ [last]
        /\ length earlier = 5%nat
        /\ prop "type" last = JStr "MCP_OUTCOME"
        /\ prop "status" (prop "payload" last) = JStr "BLOCKED"
        /\ prop "reason" (prop "payload" last) = JStr "MAX_TRANSACTION_AMOUNT")
  /\ elements_of (visibleStages (handleRun o st)) <> [].
Proof.
  intros Hfail. apply api_failed_throws in Hfail.
  destruct (handleRun_catch o st Hfail) as (Herr & Hstages & _).
  rewrite Herr, Hstages. cbn [elements_of].
  split; [reflexivity|]. split; [reflexivity|]. split; [reflexivity|]. split.
  - exists (firstn 5 executionTrace_stages), (nth 5 executionTrace_stages JUndefined).
    repeat split.
  - discriminate.
Qed.

Lemma fallback_on_api_failure_witness :
  error (handleRun (Response false None) initial)
  = Some "Using mock data (API unavailable)"
  /\ elements_of (visibleStages (handleRun (Response false None) initial)) <> [].
Proof.
  destruct (fallback_on_api_failure (Response false None) initial)
    as (Herr & _ & _ & _ & Hnonempty); [reflexivity|].
  split; [exact Herr|exact Hnonempty].
Defined.

End AppFacts.

(** ** StageCard.jsx: when the card navigates *)

Section StageCardFacts.

Import StageCard.

Lemma card_invariant_more seen seen' st :
  card_invariant seen st -> card_invariant (seen ++ seen') st.
Proof.
  unfold card_invariant. intros (Ht & Hs & Hl).
  split; [exact Ht|]. split; [|exact Hl].
  intros Hflag. destruct (Hs Hflag) as (m & Hin & Hm).
  exists m. split; [apply in_or_app; now left|assumption].
Qed.

Lemma commit_invariant seen m st :
  timer st = None ->
  (hasScrolledToBottom st = true -> exists m', In m' seen /\ near_bottom m' = true) ->
  card_invariant (seen ++ [m]) (commit m st).
Proof.
  intros Htimer Hseen. unfold card_invariant, commit, redirect_effect.
  cbn [stage hasScrolledToBottom listening timer mounted].
  split; [|split].
  - intros url Hurl.
    destruct (hasScrolledToBottom st || _) eqn:Hf; [|discriminate].
    destruct (redirect_condition (stage st)); [|discriminate].
    cbn in Hurl. injection Hurl as <-. repeat split.
  - intros Hflag. apply orb_true_iff in Hflag. destruct Hflag as [Hold|Hnew].
    + destruct (Hseen Hold) as (m' & Hin & Hm').
      exists m'. split; [apply in_or_app; now left|assumption].
    + apply andb_true_iff in Hnew. destruct Hnew as [_ Hm].
      exists m. split; [apply in_or_app; right; now left|assumption].
  - intros Hl. exact Hl.
Qed.

Lemma step_invariant seen st e :
  card_invariant seen st ->
  card_invariant (seen ++ observed [e]) (fst (step st e)).
Proof.
  intros Hinv. unfold step.
  destruct (mounted st); cbn [negb]; [|now apply card_invariant_more].
  destruct e as [m| |stage' m| | |]; cbn [observed flat_map app].
  - (* Scroll *)
    destruct (listening st) eqn:Hl; cbn [fst]; [|now apply card_invariant_more].
    unfold checkScrollPosition.
    destruct (near_bottom m && negb (hasScrolledToBottom st)) eqn:Hc;
      [|now apply card_invariant_more].
    apply andb_true_iff in Hc. destruct Hc as [Hm _].
    destruct Hinv as (_ & _ & Hlisten). specialize (Hlisten Hl).
    unfold card_invariant, redirect_effect. cbn. rewrite Hlisten. repeat split.
    + congruence.
    + exists m. split; [apply in_or_app; right; now left|assumption].
  - (* TimerFires *)
    destruct (timer st) eqn:Ht; cbn [fst]; [|now apply card_invariant_more].
    destruct Hinv as (_ & Hs & Hl). rewrite app_nil_r.
    unfold card_invariant. cbn. repeat split; try assumption; discriminate.
  - (* StageChanged *)
    cbn [fst]. apply commit_invariant; [reflexivity|]. cbn. apply Hinv.
  - destruct (shows_approve_payment (stage st)); cbn [fst];
      now apply card_invariant_more.
  - destruct (shows_booking_actions (stage st)); cbn [fst];
      now apply card_invariant_more.
  - (* Unmount *)
    cbn [fst]. destruct Hinv as (_ & Hs & _). rewrite app_nil_r.
    unfold card_invariant. cbn. repeat split; try assumption; discriminate.
Qed.

Lemma exec_invariant events : forall seen st,
  card_invariant seen st ->
  card_invariant (seen ++ observed events) (exec st events).
Proof.
  induction events as [|e events IH]; intros seen st Hinv.
  - cbn. now rewrite app_nil_r.
  - cbn [exec fold_left].
    replace (observed (e :: events)) with (observed [e] ++ observed events)
      by (unfold observed; cbn [flat_map]; now rewrite app_nil_r).
    rewrite app_assoc. apply IH. now apply step_invariant.
Qed.

Lemma mount_invariant stage0 m0 : card_invariant [m0] (mount stage0 m0).
Proof.
  unfold mount. apply (commit_invariant [] m0); [reflexivity|]. discriminate.
Qed.

Lemma reachable_invariant stage0 m0 events :
  card_invariant (m0 :: observed events) (exec (mount stage0 m0) events).
Proof. apply (exec_invariant events [m0]), mount_invariant. Qed.

Lemma is_str_eq lit v : is_str lit v = true -> v = JStr lit.
Proof.
  destruct v; cbn; try discriminate. intros H. apply String.eqb_eq in H. now subst.
Qed.

(** C10 as stated fails: a card showing a REQUIRES_APPROVAL outcome with a
    payment url, on a long page that has not been scrolled, navigates to
    that url when its approve-and-pay button is clicked, although the
    status is not 'APPROVED' and no position near the bottom was seen. *)
Lemma approve_payment_click_navigates :
  let st := mount approval_stage long_page in
  snd (step st ClickApprovePayment) = [ClickRedirect (payment_url (stage st))]
  /\ payment_url (stage st) = JStr "https://pay.example/checkout"
  /\ is_str "APPROVED" (status (stage st)) = false
  /\ redirect_condition (stage st) = false
  /\ near_bottom long_page = false
  /\ hasScrolledToBottom st = false.
Proof. repeat split. Qed.

(** C10, amended (redirect guard).  Every navigation of a card is one of
    three.  An automatic redirect happens only when the timer fires, for a
    stage of type MCP_OUTCOME whose status is exactly 'APPROVED' (so
    neither BLOCKED nor REQUIRES_APPROVAL) and whose payment_url is
    present, to that url, after a scroll position within 150px of the
    bottom has been observed.  The only other navigation to payment_url is
    the click on the approve-and-pay button of a REQUIRES_APPROVAL outcome
    that has a payment_url.  The third is the reload of the booking
    card. *)
Theorem redirect_guard stage0 m0 events e n :
  In n (snd (step (exec (mount stage0 m0) events) e)) ->
  let st := exec (mount stage0 m0) events in
  match n with
  | AutoRedirect url =>
      e = TimerFires
      /\ stage_type (stage st) = JStr "MCP_OUTCOME"
      /\ status (stage st) = JStr "APPROVED"
      /\ truthy (payment_url (stage st)) = true
      /\ url = payment_url (stage st)
      /\ (exists m, In m (m0 :: observed events) /\ near_bottom m = true)
      /\ is_str "BLOCKED" (status (stage st)) = false
      /\ is_str "REQUIRES_APPROVAL" (status (stage st)) = false
  | ClickRedirect url =>
      e = ClickApprovePayment
      /\ stage_type (stage st) = JStr "MCP_OUTCOME"
      /\ status (stage st) = JStr "REQUIRES_APPROVAL"
      /\ truthy (payment_url (stage st)) = true
      /\ url = payment_url (stage st)
  | Reload => e = ClickModifySearch
  end.
Proof.
  intros Hin st. fold st in Hin.
  pose proof (reachable_invariant stage0 m0 events) as Hinv. fold st in Hinv.
  destruct Hinv as (Htimer & Hseen & _).
  unfold step in Hin. destruct (mounted st); cbn [negb] in Hin; [|destruct Hin].
  destruct e as [m| |stage' m| | |].
  - destruct (listening st); destruct Hin.
  - destruct (timer st) as [url|] eqn:Ht; [|destruct Hin].
    destruct Hin as [<-|[]].
    destruct (Htimer url eq_refl) as (Hcond & Hurl & Hflag).
    unfold redirect_condition in Hcond.
    apply andb_true_iff in Hcond. destruct Hcond as [Hcond Hpay].
    apply andb_true_iff in Hcond. destruct Hcond as [Htype Hstatus].
    apply is_str_eq in Htype. apply is_str_eq in Hstatus.
    rewrite Hstatus. repeat split; try assumption. now apply Hseen.
  - destruct Hin.
  - destruct (shows_approve_payment (stage st)) eqn:Hshow; [|destruct Hin].
    destruct Hin as [<-|[]].
    unfold shows_approve_payment in Hshow.
    apply andb_true_iff in Hshow. destruct Hshow as [Hshow Hpay].
    apply andb_true_iff in Hshow. destruct Hshow as [Htype Hstatus].
    apply is_str_eq in Htype. apply is_str_eq in Hstatus.
    repeat split; assumption.
  - destruct (shows_booking_actions (stage st)); [|destruct Hin].
    destruct Hin as [<-|[]]. reflexivity.
  - destruct Hin.
Qed.

Lemma redirect_guard_witness :
  In (AutoRedirect (JStr "https://pay.example/checkout"))
     (snd (step (exec (mount approved_stage short_page) []) TimerFires))
  /\ status (stage (exec (mount approved_stage short_page) [])) = JStr "APPROVED"
  /\ exists m, In m (short_page :: observed []) /\ near_bottom m = true.
Proof.
  assert (Hin : In (AutoRedirect (JStr "https://pay.example/checkout"))
                   (snd (step (exec (mount approved_stage short_page) []) TimerFires)))
    by (left; reflexivity).
  split; [exact Hin|].
  pose proof (redirect_guard approved_stage short_page [] TimerFires _ Hin) as H.
  cbv zeta in H. destruct H as (_ & _ & Hstatus & _ & _ & Hseen & _).
  split; [exact Hstatus|exact Hseen].
Defined.

End StageCardFacts.

(** ** QuestionnaireModal.jsx: answers and submission *)

Section QuestionnaireFacts.

Import Questionnaire.

(** *** The [answers] object *)

Lemma has_key_in k o : has_key k o = true <-> In k (keys o).
Proof.
  unfold has_key. rewrite existsb_exists. split.
  - intros (k' & Hin & Heq). apply String.eqb_eq in Heq. now subst.
  - intros Hin. exists k. split; [assumption|apply String.eqb_refl].
Qed.

Lemma has_key_not_in k o : has_key k o = false <-> ~ In k (keys o).
Proof.
  rewrite <- has_key_in. destruct (has_key k o); split; congruence.
Qed.

Lemma keys_replace k v o : keys (replace k v o) = keys o.
Proof.
  unfold keys. induction o as [|[k' v'] o IH]; [reflexivity|]. cbn.
  destruct (String.eqb_spec k k') as [->|_]; [reflexivity|]. cbn. now rewrite IH.
Qed.


Lemma get_replace_ne k k' v o : k' <> k -> get k' (replace k v o) = get k' o.
Proof.
  intros Hne. unfold get. induction o as [|[k0 v0] o IH]; [reflexivity|]. cbn.
  destruct (String.eqb_spec k k0) as [<-|_]; cbn.
  - destruct (String.eqb_spec k' k); [congruence|reflexivity].
  - now rewrite IH.
Qed.


Lemma get_insert_index_ne n k k' v o :
  k' <> k -> get k' (insert_index n k v o) = get k' o.
Proof.
  intros Hne. unfold get.
  assert (Hskip : forall rest, assoc k' ((k, v) :: rest) = assoc k' rest).
  { intros rest. cbn. destruct (String.eqb_spec k' k); [congruence|reflexivity]. }
  induction o as [|[k0 v0] o IH]; [apply Hskip|]. cbn [insert_index].
  destruct (array_index k0) as [n'|]; [destruct (n' <? n)%N|];
    rewrite ?Hskip; try reflexivity.
  cbn. now rewrite IH.
Qed.

Lemma keys_insert_index n k v o :
  Permutation (keys (insert_index n k v o)) (k :: keys o).
Proof.
  unfold keys. induction o as [|[k' v'] o IH]; [reflexivity|]. cbn [insert_index].
  destruct (array_index k') as [n'|]; [destruct (n' <? n)%N|]; try reflexivity.
  cbn. rewrite IH. apply perm_swap.
Qed.


Lemma get_app_ne k k' v o : k' <> k -> get k' (o ++ [(k, v)]) = get k' o.
Proof.
  intros Hne. unfold get. induction o as [|[k0 v0] o IH]; cbn.
  - destruct (String.eqb_spec k' k); [congruence|reflexivity].
  - now rewrite IH.
Qed.


(** The other keys keep their values. *)
Lemma get_set_ne k k' v o : k' <> k -> get k' (set k v o) = get k' o.
Proof.
  intros Hne. unfold set. destruct (has_key k o).
  - now apply get_replace_ne.
  - destruct (array_index k); [now apply get_insert_index_ne|now apply get_app_ne].
Qed.

(** Writing an existing key keeps the keys; a new key is added once. *)
Lemma keys_set k v o :
  Permutation (keys (set k v o)) (if has_key k o then keys o else k :: keys o).
Proof.
  unfold set. destruct (has_key k o).
  - now rewrite keys_replace.
  - destruct (array_index k); [apply keys_insert_index|].
    unfold keys. rewrite map_app. cbn. symmetry. apply Permutation_cons_append.
Qed.

Lemma NoDup_keys_set k v o : List.NoDup (keys o) -> List.NoDup (keys (set k v o)).
Proof.
  intros Hnd. eapply Permutation_NoDup; [symmetry; apply keys_set|].
  destruct (has_key k o) eqn:Hk; [assumption|].
  constructor; [|assumption]. now apply has_key_not_in.
Qed.

Lemma in_keys_set k k' v o : In k' (keys (set k v o)) -> k' = k \/ In k' (keys o).
Proof.
  intros Hin. apply (Permutation_in _ (keys_set k v o)) in Hin.
  destruct (has_key k o); [now right|]. destruct Hin; [now left|now right].
Qed.


(** *** The component *)

Section Modal.

Variable to_string : JSValue -> string.
Variable questions : list Question.

Lemma question_at_in i q : question_at questions i = Some q -> In q questions.
Proof.
  unfold question_at. destruct (i <? 0)%Z; [discriminate|]. apply nth_error_In.
Qed.

Lemma initial_invariant : answers_invariant to_string questions initial.
Proof. split; [constructor|intros k []]. Qed.

Lemma handleAnswer_invariant q text st :
  In q questions ->
  answers_invariant to_string questions st ->
  answers_invariant to_string questions (handleAnswer to_string (id q) text st).
Proof.
  intros Hq [Hnd Hids]. split; cbn.
  - now apply NoDup_keys_set.
  - intros k Hk. apply in_keys_set in Hk. destruct Hk as [->|Hk]; [|now apply Hids].
    now exists q.
Qed.

Lemma dispatch_invariant st e :
  answers_invariant to_string questions st ->
  answers_invariant to_string questions (fst (dispatch to_string questions st e)).
Proof.
  intros Hinv. destruct e as [text| | |]; cbn [dispatch].
  - destruct (currentQ questions st) as [q|] eqn:Hq; cbn [fst]; [|assumption].
    apply handleAnswer_invariant; [|assumption].
    unfold currentQ in Hq. now apply question_at_in in Hq.
  - destruct (_ && _); cbn [fst]; [|assumption].
    unfold handleNext. now destruct (_ <? _)%Z.
  - destruct (negb _); cbn [fst]; [|assumption].
    unfold handlePrevious. now destruct (_ <? _)%Z.
  - now destruct (submit_enabled questions st).
Qed.

Lemma run_invariant events :
  answers_invariant to_string questions (run to_string questions events).
Proof.
  unfold run. generalize initial_invariant. generalize initial.
  induction events as [|e events IH]; intros st Hinv; [assumption|].
  cbn [fold_left]. apply IH. now apply dispatch_invariant.
Qed.




End Modal.



End QuestionnaireFacts.

(** ** App.jsx: run, reset and the questionnaire round trip *)

Section AppSessionFacts.

Import AppUI AppSession.

(** The flags that [handleRun] sets on every path. *)
Lemma handleRun_flags (o : FetchOutcome) (st : AppState) :
  loading (handleRun o st) = false
  /\ showExecution (handleRun o st) = true
  /\ inputValue (handleRun o st) = inputValue st.
Proof.
  unfold handleRun. destruct (try_fetch o) as [data|]; [|now repeat split].
  destruct (truthy (prop "needs_questions" data)); now repeat split.
Qed.

(** X1.  Whatever the network does, [handleRun] ends with the spinner off
    and the execution log open, and keeps the request text; the only error
    it ever reports is the mock-data notice, and that notice always comes
    with the mock trace. *)
Theorem handleRun_settles (o : FetchOutcome) (st : AppState) :
  loading (handleRun o st) = false
  /\ showExecution (handleRun o st) = true
  /\ inputValue (handleRun o st) = inputValue st
  /\ originalRequest (handleRun o st) = inputValue st
  /\ (error (handleRun o st) = None
      \/ (error (handleRun o st) = Some "Using mock data (API unavailable)"
          /\ visibleStages (handleRun o st) = JArr executionTrace_stages)).
Proof.
  unfold handleRun. destruct (try_fetch o) as [data|].
  - destruct (truthy (prop "needs_questions" data)); cbn; repeat split; now left.
  - cbn. repeat split. right. split; reflexivity.
Qed.

(** X2.  A response that is ok but whose body neither asks questions nor
    carries an array of stages is not treated as a failure: no error is
    set, the mock trace is not used, and the next render throws on
    [visibleStages.map]. *)
Theorem ok_response_without_stages (data : JSValue) (st : AppState) :
  try_fetch (Response true (Some data)) = Some data ->
  truthy (prop "needs_questions" data) = false ->
  is_array (prop "stages" data) = false ->
  error (handleRun (Response true (Some data)) st) = None
  /\ visibleStages (handleRun (Response true (Some data)) st) = prop "stages" data
  /\ stage_cards (handleRun (Response true (Some data)) st) = None.
Proof.
  intros Hdata Hq Harr. unfold handleRun, stage_cards. rewrite Hdata, Hq. cbn.
  repeat split. destruct (prop "stages" data); try reflexivity. discriminate.
Qed.

Lemma ok_response_without_stages_witness :
  stage_cards (handleRun (Response true (Some (JObj [("execution_id", JStr "exec_1")])))
                         initial) = None.
Proof.
  apply (ok_response_without_stages (JObj [("execution_id", JStr "exec_1")]) initial);
    reflexivity.
Defined.

(** X3.  Run followed by Reset clears the log whatever the network did:
    nothing is shown, no stages, no error and no execution id remain.  The
    request text is kept, and so is the questionnaire that the run may have
    opened. *)
Theorem reset_after_run (o : FetchOutcome) (st : AppState) :
  let st' := handleReset (handleRun o st) in
  showExecution st' = false
  /\ visibleStages st' = JArr []
  /\ stage_cards st' = Some []
  /\ error st' = None
  /\ executionId st' = JNull
  /\ loading st' = false
  /\ inputValue st' = inputValue st
  /\ showQuestionnaire st' = showQuestionnaire (handleRun o st)
  /\ questions st' = questions (handleRun o st).
Proof.
  cbv zeta. unfold handleReset. cbn.
  destruct (handleRun_flags o st) as (Hl & _ & Hi). repeat split; assumption.
Qed.

Section Submit.

Variable to_string : JSValue -> string.
Variable type_error_message : JSValue -> string -> string.

Lemma submit_failed_throws (o : SubmitOutcome) :
  submit_failed o = true ->
  exists message, try_submit to_string type_error_message o = inl message.
Proof.
  destruct o as [message|ok [message|data]]; cbn [submit_failed try_submit].
  - intros _. now exists message.
  - intros _. destruct ok; now exists message.
  - intros Hok. apply negb_true_iff in Hok. subst ok. unfold read.
    destruct data; eauto.
Qed.

Lemma failed_submit_state (answers : JSValue) (o : SubmitOutcome) (st : AppState) :
  submit_failed o = true ->
  exists message,
    message <> ""
    /\ handleQuestionnaireSubmit to_string type_error_message answers o st
       = {| inputValue := inputValue st;
            showExecution := showExecution st;
            visibleStages := visibleStages st;
            loading := false;
            error := Some message;
            executionId := executionId st;
            showQuestionnaire := false;
            questions := questions st;
            originalRequest := originalRequest st |}.
Proof.
  intros Hfail. destruct (submit_failed_throws o Hfail) as (message & Hthrow).
  unfold handleQuestionnaireSubmit. rewrite Hthrow.
  eexists. split; [|reflexivity].
  destruct (String.eqb_spec message ""); [discriminate|assumption].
Qed.

(** X4.  When the request of [handleQuestionnaireSubmit] fails, the stage
    list and the execution id are left as they were (the mock trace is not
    substituted), a non-empty error message is set, the spinner is off and
    the questionnaire is closed. *)
Theorem submit_failure_keeps_stages (answers : JSValue) (o : SubmitOutcome)
    (st : AppState) :
  submit_failed o = true ->
  let st' := handleQuestionnaireSubmit to_string type_error_message answers o st in
  visibleStages st' = visibleStages st
  /\ executionId st' = executionId st
  /\ (exists message, error st' = Some message /\ message <> "")
  /\ loading st' = false
  /\ showQuestionnaire st' = false.
Proof.
  intros Hfail. destruct (failed_submit_state answers o st Hfail) as (message & Hne & ->).
  cbn. repeat split. now exists message.
Qed.

(** X5.  The questionnaire round trip can end with an empty log: when
    [handleRun] is answered with questions and the submission of the
    answers then fails, the execution log is open with no stage card at
    all and an error message. *)
Theorem questions_then_failed_submit (data answers : JSValue) (o : SubmitOutcome)
    (st : AppState) :
  try_fetch (Response true (Some data)) = Some data ->
  truthy (prop "needs_questions" data) = true ->
  submit_failed o = true ->
  let st' := handleQuestionnaireSubmit to_string type_error_message answers o
               (handleRun (Response true (Some data)) st) in
  showExecution st' = true
  /\ stage_cards st' = Some []
  /\ error st' <> None.
Proof.
  intros Hdata Hq Hfail. cbv zeta.
  destruct (failed_submit_state answers o
              (handleRun (Response true (Some data)) st) Hfail)
    as (message & _ & ->).
  unfold stage_cards. cbn [showExecution visibleStages error].
  destruct (handleRun_flags (Response true (Some data)) st) as (_ & -> & _).
  unfold handleRun. rewrite Hdata, Hq. cbn.
  repeat split. discriminate.
Qed.

End Submit.

Lemma submit_failure_keeps_stages_witness :
  visibleStages (handleQuestionnaireSubmit (fun _ => "") (fun _ _ => "")
                   (JArr []) (SubmitResponse false (inr (JObj []))) initial)
  = visibleStages initial.
Proof.
  apply (submit_failure_keeps_stages (fun _ => "") (fun _ _ => "")
           (JArr []) (SubmitResponse false (inr (JObj []))) initial).
  reflexivity.
Defined.

Lemma questions_then_failed_submit_witness :
  stage_cards
    (handleQuestionnaireSubmit (fun _ => "") (fun _ _ => "") (JArr [])
       (SubmitRejected "Failed to fetch")
       (handleRun (Response true (Some (JObj [("needs_questions", JBool true);
                                              ("questions", JArr [])])))
                  initial))
  = Some [].
Proof.
  apply (questions_then_failed_submit (fun _ => "") (fun _ _ => "")
           (JObj [("needs_questions", JBool true); ("questions", JArr [])])
           (JArr []) (SubmitRejected "Failed to fetch") initial); reflexivity.
Defined.

End AppSessionFacts.

(** ** QuestionnaireModal.jsx: position, coverage and order of the answers *)

Section QuestionnaireViewFacts.

Import Questionnaire QuestionnaireView.

(** Typing over an answer keeps only the last text. *)
Lemma replace_replace k v1 v2 o : replace k v2 (replace k v1 o) = replace k v2 o.
Proof.
  induction o as [|[k' v'] o IH]; [reflexivity|]. cbn.
  destruct (String.eqb_spec k k') as [->|Hne]; cbn.
  - now rewrite String.eqb_refl.
  - destruct (String.eqb_spec k k'); [congruence|]. now rewrite IH.
Qed.

Lemma replace_insert_index n k v1 v2 o :
  ~ In k (keys o) -> replace k v2 (insert_index n k v1 o) = insert_index n k v2 o.
Proof.
  unfold keys. induction o as [|[k' v'] o IH]; cbn; intros Hnin.
  - now rewrite String.eqb_refl.
  - destruct (array_index k') as [n'|]; [destruct (n' <? n)%N|]; cbn;
      rewrite ?String.eqb_refl; try reflexivity.
    destruct (String.eqb_spec k k') as [->|_]; [tauto|]. rewrite IH; tauto.
Qed.

Lemma replace_app k v1 v2 o :
  ~ In k (keys o) -> replace k v2 (o ++ [(k, v1)]) = o ++ [(k, v2)].
Proof.
  unfold keys. induction o as [|[k' v'] o IH]; cbn; intros Hnin.
  - now rewrite String.eqb_refl.
  - destruct (String.eqb_spec k k') as [->|_]; [tauto|]. rewrite IH; tauto.
Qed.

Lemma has_key_set k v o : has_key k (set k v o) = true.
Proof.
  apply has_key_in. apply (Permutation_in _ (Permutation_sym (keys_set k v o))).
  destruct (has_key k o) eqn:Hk; [now apply has_key_in|now left].
Qed.

Lemma set_set k v1 v2 o : set k v2 (set k v1 o) = set k v2 o.
Proof.
  unfold set at 1. rewrite has_key_set. unfold set.
  destruct (has_key k o) eqn:Hk; [apply replace_replace|].
  apply has_key_not_in in Hk.
  destruct (array_index k); [now apply replace_insert_index|now apply replace_app].
Qed.

(** Overwriting an existing answer does not move it. *)
Lemma keys_set_present k v o : has_key k o = true -> keys (set k v o) = keys o.
Proof. intros Hk. unfold set. rewrite Hk. apply keys_replace. Qed.

Lemma incl_keys_set k v o : incl (keys o) (keys (set k v o)).
Proof.
  intros k' Hin. apply (Permutation_in _ (Permutation_sym (keys_set k v o))).
  destruct (has_key k o); [assumption|now right].
Qed.

(** *** Enumeration order *)

Lemma no_index_app ks ks' : no_index (ks ++ ks') = no_index ks && no_index ks'.
Proof. apply forallb_app. Qed.

Lemma ascending_insert_index n k v o : array_index k = Some n ->
  forall lower, (lower <= n)%N ->
                ascending lower (keys o) = true ->
                ascending lower (keys (insert_index n k v o)) = true.
Proof.
  intros Hk. unfold keys.
  induction o as [|[k' v'] o IH]; intros lower Hle Hasc; cbn in *.
  - rewrite Hk. now apply andb_true_iff; split; [apply N.leb_le|].
  - destruct (array_index k') as [n'|] eqn:Hk'.
    + apply andb_true_iff in Hasc. destruct Hasc as [Hlo Hrest].
      destruct (n' <? n)%N eqn:Hlt; cbn.
      * rewrite Hk', Hlo. cbn. apply IH; [|assumption].
        apply N.ltb_lt in Hlt. lia.
      * rewrite Hk, Hk', Hrest. apply N.ltb_ge in Hlt.
        rewrite !andb_true_r. apply andb_true_iff. split; now apply N.leb_le.
    + cbn. rewrite Hk, Hk', Hasc. rewrite andb_true_r. now apply N.leb_le.
Qed.

Lemma ascending_app_name k v o : array_index k = None ->
  forall lower, ascending lower (keys o) = true ->
                ascending lower (keys (o ++ [(k, v)])) = true.
Proof.
  intros Hk. unfold keys.
  induction o as [|[k' v'] o IH]; intros lower Hasc; cbn in *.
  - now rewrite Hk.
  - destruct (array_index k') as [n'|].
    + apply andb_true_iff in Hasc. destruct Hasc as [Hlo Hrest].
      rewrite Hlo. cbn. now apply IH.
    + rewrite map_app, no_index_app, Hasc. cbn. now rewrite Hk.
Qed.

Lemma ascending_set k v o :
  ascending 0 (keys o) = true -> ascending 0 (keys (set k v o)) = true.
Proof.
  intros Hasc. unfold set. destruct (has_key k o).
  - now rewrite keys_replace.
  - destruct (array_index k) as [n|] eqn:Hk.
    + apply ascending_insert_index; [assumption|lia|assumption].
    + now apply ascending_app_name.
Qed.

Section Modal.

Variable to_string : JSValue -> string.
Variable questions : list Question.

Lemma run_snoc events e :
  run to_string questions (events ++ [e])
  = fst (dispatch to_string questions (run to_string questions events) e).
Proof. unfold run. now rewrite fold_left_app. Qed.

(** A property that holds initially and is kept by every event holds in
    every reachable state. *)
Lemma run_ind (P : State -> Prop) :
  P initial ->
  (forall st e, P st -> P (fst (dispatch to_string questions st e))) ->
  forall events, P (run to_string questions events).
Proof.
  intros Hinit Hstep events. induction events as [|e events IH] using rev_ind.
  - exact Hinit.
  - rewrite run_snoc. now apply Hstep.
Qed.

Lemma in_range_step st e :
  in_range questions st -> in_range questions (fst (dispatch to_string questions st e)).
Proof.
  intros Hr. unfold in_range in *.
  destruct e as [text| | |]; cbn [dispatch].
  - now destruct (currentQ questions st).
  - destruct (_ && _); cbn [fst]; [|assumption].
    unfold handleNext. destruct (_ <? _)%Z eqn:Hlt; [|assumption].
    apply Z.ltb_lt in Hlt. cbn. lia.
  - destruct (negb _); cbn [fst]; [|assumption].
    unfold handlePrevious. destruct (_ <? _)%Z eqn:Hlt; [|assumption].
    apply Z.ltb_lt in Hlt. cbn. lia.
  - now destruct (submit_enabled questions st).
Qed.

Lemma in_range_run events : in_range questions (run to_string questions events).
Proof.
  apply run_ind; [unfold in_range, initial; cbn; lia|].
  intros st e. apply in_range_step.
Qed.

Lemma question_at_some i :
  (0 <= i < questions_length questions)%Z -> exists q, question_at questions i = Some q.
Proof.
  intros Hi. unfold question_at, questions_length in *.
  destruct (i <? 0)%Z eqn:Hneg; [apply Z.ltb_lt in Hneg; lia|].
  destruct (nth_error questions (Z.to_nat i)) as [q|] eqn:Hq; [now exists q|].
  apply nth_error_None in Hq. lia.
Qed.

(** X6.  In every state the modal reaches, [currentQuestion] is a valid
    index: it never goes below 0 and, when there is at least one question,
    [currentQ] is a question of the list (never [undefined]). *)
Theorem current_question_in_range (events : list Event) :
  let st := run to_string questions events in
  (0 <= currentQuestion st)%Z
  /\ (questions <> [] ->
      (currentQuestion st < questions_length questions)%Z
      /\ exists q, currentQ questions st = Some q /\ In q questions).
Proof.
  intros st. pose proof (in_range_run events) as Hr. fold st in Hr.
  unfold in_range in Hr. split; [lia|]. intros Hne.
  assert (Hlen : (0 < questions_length questions)%Z).
  { unfold questions_length. destruct questions; [congruence|cbn; lia]. }
  assert (Hlt : (currentQuestion st < questions_length questions)%Z) by lia.
  split; [exact Hlt|].
  destruct (question_at_some (currentQuestion st)) as (q & Hq); [lia|].
  exists q. split; [exact Hq|]. now apply question_at_in in Hq.
Qed.

(** X7.  Next and Previous undo each other and never touch the answers:
    in every reachable state, going forward (when not on the last question)
    and back, or back (when not on the first) and forward, returns to the
    same state. *)
Theorem next_previous_round_trip (events : list Event) :
  let st := run to_string questions events in
  ((currentQuestion st < questions_length questions - 1)%Z ->
   handlePrevious (handleNext questions st) = st)
  /\ ((0 < currentQuestion st)%Z ->
      handleNext questions (handlePrevious st) = st)
  /\ answers (handleNext questions st) = answers st
  /\ answers (handlePrevious st) = answers st.
Proof.
  intros st. pose proof (in_range_run events) as Hr. fold st in Hr.
  unfold in_range in Hr. destruct st as [ans cq]. cbn in Hr.
  unfold handleNext, handlePrevious. cbn. repeat split.
  - intros Hlt. apply Z.ltb_lt in Hlt. rewrite Hlt. cbn.
    assert (Hpos : (0 <? cq + 1)%Z = true) by (apply Z.ltb_lt; lia).
    rewrite Hpos. f_equal. lia.
  - intros Hpos. apply Z.ltb_lt in Hpos. rewrite Hpos. cbn.
    assert (Hlt : (cq - 1 <? questions_length questions - 1)%Z = true)
      by (apply Z.ltb_lt; apply Z.ltb_lt in Hpos; lia).
    rewrite Hlt. f_equal. lia.
  - now destruct (_ <? _)%Z.
  - now destruct (_ <? _)%Z.
Qed.

Lemma incl_keys_ids events :
  incl (keys (answers (run to_string questions events)))
       (question_ids to_string questions).
Proof.
  destruct (run_invariant to_string questions events) as [_ Hids].
  intros k Hk. destruct (Hids k Hk) as (q & Hq & <-).
  unfold question_ids.
  now apply (in_map (fun q => property_key to_string (id q))).
Qed.

Lemma submit_enabled_count st :
  submit_enabled questions st = true ->
  (length (question_ids to_string questions) <= length (keys (answers st)))%nat.
Proof.
  unfold submit_enabled, submit_disabled, questions_length, question_ids.
  intros Hen. apply andb_true_iff in Hen. destruct Hen as [_ Hen].
  apply negb_true_iff, Z.ltb_ge in Hen. rewrite length_map. lia.
Qed.

(** With the button enabled, the distinct keys of [answers] lie within the
    keys of the ids and are at least as many. *)
Lemma enabled_keys_cover events :
  submit_enabled questions (run to_string questions events) = true ->
  List.NoDup (question_ids to_string questions)
  /\ Permutation (keys (answers (run to_string questions events)))
                 (question_ids to_string questions).
Proof.
  intros Hen.
  destruct (run_invariant to_string questions events) as [Hnd _].
  pose proof (incl_keys_ids events) as Hincl.
  pose proof (submit_enabled_count _ Hen) as Hlen.
  split.
  - eapply List.NoDup_incl_NoDup; eassumption.
  - now apply Permutation.NoDup_Permutation_bis.
Qed.

(** X8.  Whenever the Submit All Answers button is enabled in a reachable
    state, the property keys of the question ids are pairwise distinct and
    the entries that [handleSubmit] emits cover every question exactly
    once: their ids are a permutation of the keys of the question ids. *)
Theorem submit_covers_questions (events : list Event) :
  let st := run to_string questions events in
  submit_enabled questions st = true ->
  List.NoDup (question_ids to_string questions)
  /\ Permutation (map fa_id (handleSubmit questions st))
                 (question_ids to_string questions).
Proof.
  intros st Hen.
  assert (Hkeys : map fa_id (handleSubmit questions st) = keys (answers st)).
  { unfold handleSubmit, entries, keys. rewrite map_map. reflexivity. }
  rewrite Hkeys. now apply enabled_keys_cover.
Qed.

(** X9.  When the ids of two questions denote the same property key, the
    Submit All Answers button is never enabled, whatever the user types and
    clicks. *)
Theorem duplicate_ids_block_submit (events : list Event) :
  ~ List.NoDup (question_ids to_string questions) ->
  submit_enabled questions (run to_string questions events) = false.
Proof.
  intros Hdup.
  destruct (submit_enabled questions (run to_string questions events)) eqn:Hen;
    [|reflexivity].
  exfalso. apply Hdup. now apply (enabled_keys_cover events).
Qed.

(** X10.  The number of collected answers never goes down: a key of
    [answers] stays in it through every later event (clearing the input
    stores the empty text under the same key), so the count under the
    buttons only grows. *)
Theorem answers_only_grow (events more : list Event) :
  incl (keys (answers (run to_string questions events)))
       (keys (answers (run to_string questions (events ++ more))))
  /\ (length (keys (answers (run to_string questions events)))
      <= length (keys (answers (run to_string questions (events ++ more)))))%nat.
Proof.
  assert (Hincl : incl (keys (answers (run to_string questions events)))
                       (keys (answers (run to_string questions (events ++ more))))).
  { induction more as [|e more IH] using rev_ind.
    - rewrite app_nil_r. apply incl_refl.
    - rewrite app_assoc, run_snoc.
      eapply incl_tran; [exact IH|].
      generalize (run to_string questions (events ++ more)). intros st.
      destruct e as [text| | |]; cbn [dispatch].
      + destruct (currentQ questions st); cbn; [apply incl_keys_set|apply incl_refl].
      + destruct (_ && _); cbn [fst]; [|apply incl_refl].
        unfold handleNext. destruct (_ <? _)%Z; apply incl_refl.
      + destruct (negb _); cbn [fst]; [|apply incl_refl].
        unfold handlePrevious. destruct (_ <? _)%Z; apply incl_refl.
      + destruct (submit_enabled questions st); apply incl_refl. }
  split; [exact Hincl|].
  apply List.NoDup_incl_length; [|exact Hincl].
  apply (run_invariant to_string questions events).
Qed.

(** X11.  The entries that [handleSubmit] emits are in the enumeration
    order of [Object.entries], whatever the order in which the questions
    were answered: ids that are array indices come first, in ascending
    numeric order, and the other ids follow. *)
Theorem submitted_in_enumeration_order (events : list Event) :
  ascending 0 (map fa_id (handleSubmit questions (run to_string questions events)))
  = true.
Proof.
  assert (Hkeys : forall st, map fa_id (handleSubmit questions st) = keys (answers st)).
  { intros st. unfold handleSubmit, entries, keys. rewrite map_map. reflexivity. }
  rewrite Hkeys. apply (run_ind (fun st => ascending 0 (keys (answers st)) = true)).
  - reflexivity.
  - intros st e Hasc. destruct e as [text| | |]; cbn [dispatch].
    + destruct (currentQ questions st); cbn; [now apply ascending_set|assumption].
    + destruct (_ && _); cbn [fst]; [|assumption].
      unfold handleNext. now destruct (_ <? _)%Z.
    + destruct (negb _); cbn [fst]; [|assumption].
      unfold handlePrevious. now destruct (_ <? _)%Z.
    + now destruct (submit_enabled questions st).
Qed.

(** Questions at different positions have different keys when the keys of
    the ids are pairwise distinct. *)
Lemma distinct_positions i j a b :
  List.NoDup (question_ids to_string questions) ->
  question_at questions i = Some a -> question_at questions j = Some b ->
  i <> j -> property_key to_string (id a) <> property_key to_string (id b).
Proof.
  unfold question_at, question_ids. intros Hnd Ha Hb Hij Heq.
  destruct (i <? 0)%Z eqn:Hi; [discriminate|].
  destruct (j <? 0)%Z eqn:Hj; [discriminate|].
  apply Z.ltb_ge in Hi. apply Z.ltb_ge in Hj.
  assert (Hlt : (Z.to_nat i
                 < length (map (fun q => property_key to_string (id q)) questions))%nat).
  { rewrite length_map. apply nth_error_Some. congruence. }
  apply (map_nth_error (fun q => property_key to_string (id q))) in Ha.
  apply (map_nth_error (fun q => property_key to_string (id q))) in Hb.
  cbv beta in Ha, Hb. rewrite Heq, <- Hb in Ha.
  apply (proj1 (List.NoDup_nth_error _) Hnd _ _ Hlt) in Ha. lia.
Qed.

(** The Next button is enabled only on a truthy read of the current
    question's key. *)
Lemma next_enabled_read st q :
  currentQ questions st = Some q ->
  next_disabled to_string questions st = false ->
  (exists a, get (property_key to_string (id q)) (answers st) = Some a /\ a <> "")
  \/ (get (property_key to_string (id q)) (answers st) = None
      /\ inherits (property_key to_string (id q)) = true).
Proof.
  intros Hq. unfold next_disabled, currentAnswer, member. rewrite Hq.
  destruct (get (property_key to_string (id q)) (answers st)) as [a|].
  - intros Hnext. left. exists a. split; [reflexivity|]. intros ->.
    cbn in Hnext. discriminate.
  - destruct (inherits (property_key to_string (id q))); [now right|].
    cbn. discriminate.
Qed.

(** X12.  With pairwise distinct keys, the modal cannot be moved past a
    question whose read in [answers] is falsy: in every reachable state each
    question before the current one has a stored answer that is not empty,
    unless it has no stored answer and its key is the name of a member that
    [answers] inherits from [Object.prototype] (such as [constructor]),
    which the Next button takes for an answer. *)
Theorem earlier_questions_answered (events : list Event) :
  List.NoDup (question_ids to_string questions) ->
  answered_before to_string questions (run to_string questions events).
Proof.
  intros Hnd.
  apply (run_ind (fun st => in_range questions st
                            /\ answered_before to_string questions st)).
  - split; [unfold in_range, initial; cbn; lia|].
    intros i q Hi. cbn in Hi. lia.
  - intros st e [Hr Hbefore].
    split; [now apply in_range_step|].
    unfold answered_before in *. destruct e as [text| | |]; cbn [dispatch].
    + destruct (currentQ questions st) as [qc|] eqn:Hqc; cbn [fst]; [|assumption].
      intros i q Hi Hq. cbn in Hi.
      assert (Hne : property_key to_string (id q) <> property_key to_string (id qc)).
      { unfold currentQ in Hqc.
        apply (distinct_positions i (currentQuestion st)); auto. lia. }
      unfold handleAnswer. cbn [answers].
      rewrite get_set_ne by assumption. now apply (Hbefore i q).
    + destruct (negb (shows_submit questions st)
                && negb (next_disabled to_string questions st))
        eqn:Hen; cbn [fst]; [|assumption].
      apply andb_true_iff in Hen. destruct Hen as [Hshow Hnext].
      unfold shows_submit in Hshow. rewrite negb_involutive in Hshow.
      unfold handleNext. rewrite Hshow. cbn.
      intros i q Hi Hq.
      destruct (Z.eq_dec i (currentQuestion st)) as [->|Hneq];
        [|apply (Hbefore i q); [lia|assumption]].
      apply negb_true_iff in Hnext. now apply next_enabled_read.
    + destruct (negb _); cbn [fst]; [|assumption].
      unfold handlePrevious. destruct (_ <? _)%Z eqn:Hlt; [|assumption].
      cbn. intros i q Hi Hq. apply (Hbefore i q); [lia|assumption].
    + now destruct (submit_enabled questions st).
Qed.

End Modal.

(** X13.  A questionnaire without questions ignores typing and navigation
    and can be submitted at once: every event leaves the initial state, and
    the Submit button passes the empty list to [onSubmit]. *)
Theorem empty_questionnaire (to_string : JSValue -> string) (events : list Event) :
  run to_string [] events = initial
  /\ dispatch to_string [] (run to_string [] events) ClickSubmit = (initial, Some []).
Proof.
  assert (Hrun : run to_string [] events = initial).
  { apply (run_ind to_string [] (fun st => st = initial)); [reflexivity|].
    intros st e ->. now destruct e. }
  rewrite Hrun. split; reflexivity.
Qed.

(** X14.  Typing over an answer keeps only the last text: answering the
    same question twice gives the same [answers] object, in the same
    order, as answering it once with the second text; and overwriting an
    answer does not change the order of the keys. *)
Theorem handleAnswer_overwrites (to_string : JSValue -> string) (qid : JSValue)
    (first second : string) (st : State) :
  handleAnswer to_string qid second (handleAnswer to_string qid first st)
  = handleAnswer to_string qid second st
  /\ keys (answers (handleAnswer to_string qid second
                      (handleAnswer to_string qid first st)))
     = keys (answers (handleAnswer to_string qid first st)).
Proof.
  unfold handleAnswer. cbn. split.
  - now rewrite set_set.
  - apply keys_set_present, has_key_set.
Qed.

Lemma submit_covers_questions_witness :
  Permutation
    (map fa_id (handleSubmit sample_questions
                  (run sample_to_string sample_questions sample_session)))
    (question_ids sample_to_string sample_questions).
Proof.
  apply (submit_covers_questions sample_to_string sample_questions sample_session).
  reflexivity.
Defined.

Lemma duplicate_ids_block_submit_witness :
  submit_enabled clashing_questions
    (run sample_to_string clashing_questions [Change "Pune"; ClickNext; Change "Goa"])
  = false.
Proof.
  apply duplicate_ids_block_submit. intros Hnd.
  apply List.NoDup_cons_iff in Hnd. destruct Hnd as [Hnin _].
  apply Hnin. left. reflexivity.
Defined.

(** The second case of X12 occurs: a question whose id is [constructor] is
    passed with the Next button although nothing was typed. *)
Lemma inherited_name_passes_next :
  run sample_to_string prototype_named_questions [ClickNext]
  = {| answers := []; currentQuestion := 1 |}
  /\ currentAnswer sample_to_string prototype_named_questions initial
     = Inherited "constructor".
Proof. split; reflexivity. Qed.

Lemma earlier_questions_answered_witness :
  answered_before sample_to_string sample_questions
    (run sample_to_string sample_questions sample_session).
Proof.
  apply earlier_questions_answered.
  repeat constructor; cbn; intuition discriminate.
Defined.

Lemma next_previous_round_trip_witness :
  handleNext sample_questions
    (handlePrevious (run sample_to_string sample_questions sample_session))
  = run sample_to_string sample_questions sample_session.
Proof.
  apply (next_previous_round_trip sample_to_string sample_questions sample_session).
  reflexivity.
Defined.

Lemma current_question_in_range_witness :
  (currentQuestion (run sample_to_string sample_questions sample_session)
   < questions_length sample_questions)%Z.
Proof.
  apply (current_question_in_range sample_to_string sample_questions sample_session).
  discriminate.
Defined.

End QuestionnaireViewFacts.

(** ** StageCard.jsx: the redirect over time and what the card shows *)

Section StageCardViewFacts.

Import StageCard StageCardView.

Lemma mount_scrolled stage0 m0 :
  redirect_condition stage0 = true ->
  mount stage0 m0 = scrolled stage0 (near_bottom m0).
Proof.
  intros Hc. unfold mount, commit, redirect_effect, scrolled.
  cbn [stage hasScrolledToBottom listening timer mounted]. rewrite Hc.
  now destruct (near_bottom m0).
Qed.

Lemma scroll_scrolled stage0 seen m :
  redirect_condition stage0 = true ->
  fst (step (scrolled stage0 seen) (Scroll m)) = scrolled stage0 (seen || near_bottom m).
Proof.
  intros Hc. unfold step, scrolled, checkScrollPosition, redirect_effect.
  cbn [stage hasScrolledToBottom listening timer mounted negb fst].
  destruct seen, (near_bottom m);
    cbn [stage hasScrolledToBottom listening timer mounted negb andb orb fst];
    rewrite ?Hc; reflexivity.
Qed.

Lemma exec_scrolled stage0 ms : forall seen,
  redirect_condition stage0 = true ->
  exec (scrolled stage0 seen) (map Scroll ms)
  = scrolled stage0 (seen || existsb near_bottom ms).
Proof.
  induction ms as [|m ms IH]; intros seen Hc.
  - cbn. now rewrite orb_false_r.
  - cbn [map exec fold_left existsb]. rewrite (scroll_scrolled _ _ _ Hc).
    fold (exec (scrolled stage0 (seen || near_bottom m)) (map Scroll ms)).
    rewrite IH by assumption. now rewrite orb_assoc.
Qed.

(** X15.  The redirect does happen: a card mounted with an MCP_OUTCOME
    stage whose status is 'APPROVED' and that has a payment_url navigates to
    that url when its timer elapses, as soon as one of the scroll positions
    seen at the mount or at a later scroll event was within 150px of the
    bottom; before that no timer is pending. *)
Theorem approved_card_redirects stage0 m0 ms :
  redirect_condition stage0 = true ->
  let st := exec (mount stage0 m0) (map Scroll ms) in
  (existsb near_bottom (m0 :: ms) = true ->
   snd (step st TimerFires) = [AutoRedirect (payment_url stage0)])
  /\ (existsb near_bottom (m0 :: ms) = false ->
      timer st = None /\ snd (step st TimerFires) = []).
Proof.
  intros Hc st. unfold st. rewrite (mount_scrolled _ _ Hc), (exec_scrolled _ _ _ Hc).
  cbn [existsb]. split; intros ->; [reflexivity|split; reflexivity].
Qed.

Lemma approved_card_redirects_witness :
  snd (step (exec (mount approved_stage long_page) (map Scroll [long_page; short_page]))
            TimerFires)
  = [AutoRedirect (payment_url approved_stage)].
Proof.
  apply (approved_card_redirects approved_stage long_page [long_page; short_page]);
    reflexivity.
Defined.

(** Once the flag is set and no timer is pending, nothing redirects any
    more until the stage changes. *)
Lemma spent_card_is_quiet events : forall st,
  hasScrolledToBottom st = true -> timer st = None ->
  forallb (fun e => negb (is_stage_change e)) events = true ->
  List.filter is_auto_redirect (trace st events) = [].
Proof.
  induction events as [|e events IH]; intros st Hflag Htimer Hno; [reflexivity|].
  cbn [forallb] in Hno. apply andb_true_iff in Hno. destruct Hno as [He Hno].
  cbn [trace]. rewrite List.filter_app.
  assert (Hstep : List.filter is_auto_redirect (snd (step st e)) = []
                  /\ hasScrolledToBottom (fst (step st e)) = true
                  /\ timer (fst (step st e)) = None).
  { unfold step. destruct (mounted st); cbn [negb]; [|now repeat split].
    destruct e as [m| |stage' m| | |]; try discriminate.
    - destruct (listening st); cbn [fst snd]; [|now repeat split].
      unfold checkScrollPosition. rewrite Hflag, andb_false_r. now repeat split.
    - rewrite Htimer. now repeat split.
    - destruct (shows_approve_payment (stage st)); now repeat split.
    - destruct (shows_booking_actions (stage st)); now repeat split.
    - now repeat split. }
  destruct Hstep as (-> & Hflag' & Htimer'). now apply IH.
Qed.

Lemma at_most_one_redirect_from events : forall seen st,
  card_invariant seen st ->
  forallb (fun e => negb (is_stage_change e)) events = true ->
  (length (List.filter is_auto_redirect (trace st events)) <= 1)%nat.
Proof.
  induction events as [|e events IH]; intros seen st Hinv Hno; [cbn; lia|].
  cbn [forallb] in Hno. apply andb_true_iff in Hno. destruct Hno as [He Hno].
  cbn [trace]. rewrite List.filter_app, length_app.
  pose proof (step_invariant seen st e Hinv) as Hinv'.
  destruct (List.filter is_auto_redirect (snd (step st e))) as [|n ns] eqn:Hout.
  - cbn. now apply (IH _ _ Hinv').
  - (* the event has fired the timer *)
    assert (Hfired : timer st <> None /\ e = TimerFires /\ mounted st = true /\ ns = []).
    { unfold step in Hout. destruct (mounted st); cbn [negb] in Hout; [|discriminate].
      destruct e as [m| |stage' m| | |]; try discriminate.
      - destruct (listening st); discriminate.
      - destruct (timer st); [|discriminate]. cbn in Hout.
        injection Hout as _ <-. now repeat split.
      - destruct (shows_approve_payment (stage st)); discriminate.
      - destruct (shows_booking_actions (stage st)); discriminate. }
    destruct Hfired as (Hsome & -> & Hm & ->).
    destruct (timer st) as [url|] eqn:Htimer; [|congruence].
    destruct Hinv as (Ht & _ & _). destruct (Ht url Htimer) as (_ & _ & Hflag).
    rewrite spent_card_is_quiet; [cbn; lia| | |assumption];
      unfold step; rewrite Hm, Htimer; cbn; [assumption|reflexivity].
Qed.

(** X16.  Between two changes of the stage prop a card redirects
    automatically at most once: after the timer has fired, further
    scrolling, clicks and timer events cause no second automatic
    redirect. *)
Theorem at_most_one_redirect stage0 m0 events :
  forallb (fun e => negb (is_stage_change e)) events = true ->
  (length (List.filter is_auto_redirect (trace (mount stage0 m0) events)) <= 1)%nat.
Proof.
  apply (at_most_one_redirect_from events [m0]), mount_invariant.
Qed.

Lemma at_most_one_redirect_witness :
  (length (List.filter is_auto_redirect
             (trace (mount approved_stage short_page)
                    [TimerFires; Scroll short_page; TimerFires])) <= 1)%nat.
Proof. apply at_most_one_redirect. reflexivity. Defined.

(** X17.  The scrolled flag outlives the stage it was set for: once a
    position near the bottom has been seen, a mounted card whose stage prop
    changes to an approved outcome with a payment_url starts the redirect
    at once, wherever the page is scrolled to at that moment. *)
Theorem new_stage_redirects_without_scroll (st : CardState) stage' m :
  mounted st = true ->
  hasScrolledToBottom st = true ->
  redirect_condition stage' = true ->
  timer (fst (step st (StageChanged stage' m))) = Some (payment_url stage')
  /\ snd (step (fst (step st (StageChanged stage' m))) TimerFires)
     = [AutoRedirect (payment_url stage')].
Proof.
  intros Hm Hflag Hc.
  assert (Hst : fst (step st (StageChanged stage' m)) = scrolled stage' true).
  { unfold step. rewrite Hm. cbn [negb fst]. unfold commit, redirect_effect, scrolled.
    cbn [stage hasScrolledToBottom listening timer mounted].
    rewrite Hflag, Hc. reflexivity. }
  rewrite Hst. split; reflexivity.
Qed.

Lemma new_stage_redirects_without_scroll_witness :
  snd (step (fst (step (mount approved_stage short_page)
                       (StageChanged approved_stage long_page)))
            TimerFires)
  = [AutoRedirect (payment_url approved_stage)].
Proof.
  apply (new_stage_redirects_without_scroll (mount approved_stage short_page));
    reflexivity.
Defined.

Lemma is_str_distinct lit lit' v :
  lit <> lit' -> is_str lit v = true -> is_str lit' v = false.
Proof.
  intros Hne Hv. apply is_str_eq in Hv. subst v. cbn.
  destruct (String.eqb_spec lit lit'); [contradiction|reflexivity].
Qed.

(** X18.  What the card shows agrees with what it is about to do: in every
    reachable state with a redirect pending, the payment panel is on
    screen with the notice that a redirect is under way, and neither the
    approval panel nor the violations panel is; and while the panel still
    asks the user to scroll down, no redirect is pending. *)
Theorem pending_redirect_is_announced stage0 m0 events :
  let st := exec (mount stage0 m0) events in
  (forall url, timer st = Some url ->
     redirect_message st = Some Redirecting
     /\ shows_approval_required (stage st) = false
     /\ shows_failure_details (stage st) = false)
  /\ (redirect_message st = Some ScrollPrompt -> timer st = None).
Proof.
  intros st. pose proof (reachable_invariant stage0 m0 events) as Hinv. fold st in Hinv.
  destruct Hinv as (Htimer & _ & _). split.
  - intros url Hurl. destruct (Htimer url Hurl) as (Hc & _ & Hflag).
    unfold redirect_condition in Hc.
    apply andb_true_iff in Hc. destruct Hc as [Hc Hpay].
    apply andb_true_iff in Hc. destruct Hc as [Htype Hstatus].
    unfold redirect_message, shows_payment_redirect, shows_approval_required,
      shows_failure_details.
    rewrite Htype, Hstatus, Hpay, Hflag.
    rewrite (is_str_distinct "APPROVED" "REQUIRES_APPROVAL" _ ltac:(discriminate) Hstatus).
    rewrite (is_str_distinct "APPROVED" "BLOCKED" _ ltac:(discriminate) Hstatus).
    repeat split.
  - unfold redirect_message. intros Hmsg.
    destruct (timer st) as [url|] eqn:Hurl; [|reflexivity].
    destruct (Htimer url eq_refl) as (_ & _ & Hflag). rewrite Hflag in Hmsg.
    destruct (shows_payment_redirect (stage st)); discriminate.
Qed.

Lemma pending_redirect_is_announced_witness :
  redirect_message (exec (mount approved_stage short_page) []) = Some Redirecting.
Proof.
  pose proof (pending_redirect_is_announced approved_stage short_page []) as H.
  cbv zeta in H. destruct H as [Hpending _].
  apply (Hpending (JStr "https://pay.example/checkout")). reflexivity.
Defined.

End StageCardViewFacts.

(** ** The backend payment check: shape of the verdict *)

Section BackendShape.

Import Backend.

(** X19.  The check is monotone in the amount and blind to the merchant:
    if some payment is EXECUTED, every payment of at most that amount is
    EXECUTED for every merchant, on the allowlist or not; and if some
    payment is BLOCKED, every payment of at least that amount is BLOCKED
    for every merchant. *)
Theorem verdict_monotone (amount amount' : Q) (merchant merchant' : string) :
  (amount' <= amount)%Q ->
  (evaluate_payment_policy amount merchant = EXECUTED ->
   evaluate_payment_policy amount' merchant' = EXECUTED)
  /\ (evaluate_payment_policy amount' merchant = BLOCKED ->
      evaluate_payment_policy amount merchant' = BLOCKED).
Proof.
  intros Hle. rewrite !evaluate_payment_policy_eq. split.
  - destruct (Qle_bool amount 5000) eqn:Ha; [intros _|discriminate].
    apply Qle_bool_iff in Ha.
    assert (H' : Qle_bool amount' 5000 = true)
      by (apply Qle_bool_iff; eapply Qle_trans; eassumption).
    now rewrite H'.
  - destruct (Qle_bool amount' 5000) eqn:Ha'; [discriminate|intros _].
    destruct (Qle_bool amount 5000) eqn:Ha; [|reflexivity].
    apply Qle_bool_iff in Ha.
    assert (H' : Qle_bool amount' 5000 = true)
      by (apply Qle_bool_iff; eapply Qle_trans; eassumption).
    congruence.
Qed.

Lemma verdict_monotone_witness :
  evaluate_payment_policy 1200 "CORNER_SHOP" = EXECUTED
  /\ evaluate_payment_policy 9000 "CORNER_SHOP" = BLOCKED.
Proof.
  split.
  - apply (verdict_monotone 3000 1200 "ELECTRICITY_BOARD" "CORNER_SHOP");
      [discriminate|reflexivity].
  - apply (verdict_monotone 9000 6200 "ELECTRICITY_BOARD" "CORNER_SHOP");
      [discriminate|reflexivity].
Defined.

End BackendShape.
